(** * openstack-audit-middleware: the resource-grammar compiler and the
      path-walking event builder of [auditmiddleware/_api.py]

    A shallow embedding of [OpenStackAuditMiddleware] and of the helper
    [_put_hier].  Python dictionaries are finite maps ([gmap]) where only
    lookups and updates are made, and lists of pairs where the iteration
    order is observed ([iteritems] over the raw configuration,
    [next(iter(payload))] on a request body).  Exceptions are values of an
    error monad.  Logging is not modelled. *)

From stdpp Require Import gmap strings list fin_maps.
From Equations Require Import Equations.
From Stdlib Require Import ZArith Lia Ascii String DecimalString.
Set Warnings "-register-all".
Open Scope Z_scope.

(** ** Python prelude *)

(** The exceptions that the modelled code can raise. *)
Inductive exn : Type := AttributeError | TypeError | ValueError.

(** A computation either returns a value or raises. *)
Inductive py (A : Type) : Type :=
| Ok (a : A)
| Raise (e : exn).
Arguments Ok {A} a.
Arguments Raise {A} e.

#[global] Instance py_ret : MRet py := @Ok.
#[global] Instance py_bind : MBind py :=
  λ A B f m, match m with Ok a => f a | Raise e => Raise e end.

Definition str_len (s : string) : Z := Z.of_nat (String.length s).

(** How Python normalises one bound of a slice (and the [start] argument of
    [str.find]): a negative bound counts from the end, and every bound is
    clipped to the string. *)
Definition clamp (len i : Z) : Z :=
  if i <? 0 then Z.max 0 (i + len) else Z.min i len.

(** [s[lo:hi]] *)
Definition slice (s : string) (lo hi : Z) : string :=
  let lo' := clamp (str_len s) lo in
  let hi' := clamp (str_len s) hi in
  substring (Z.to_nat lo') (Z.to_nat (hi' - lo')) s.

(** [s[lo:]] *)
Definition slice_from (s : string) (lo : Z) : string := slice s lo (str_len s).

Fixpoint find_nat (c : ascii) (s : string) (start : nat) : option nat :=
  match s with
  | EmptyString => None
  | String a s' =>
      match start with
      | S k => S <$> find_nat c s' k
      | O => if Ascii.eqb a c then Some O else S <$> find_nat c s' O
      end
  end.

(** [s.find(c, start)] for a needle of one character: the index of its first
    occurrence at or after [start], and [-1] when there is none. *)
Definition find (s : string) (c : ascii) (start : Z) : Z :=
  match find_nat c s (Z.to_nat (clamp (str_len s) start)) with
  | Some i => Z.of_nat i
  | None => -1
  end.

(** [s.startswith(p)] *)
Definition startswith (s p : string) : bool := String.prefix p s.

(** [s.endswith(p)] *)
Definition endswith (s p : string) : bool :=
  (String.length p <=? String.length s)%nat
  && String.eqb (substring (String.length s - String.length p) (String.length p) s) p.

(** [s.replace(c, by)] for a pattern of one character: every occurrence is
    replaced. *)
Fixpoint replace (s : string) (c : ascii) (by_ : string) : string :=
  match s with
  | EmptyString => EmptyString
  | String a s' =>
      if Ascii.eqb a c then by_ +:+ replace s' c by_
      else String a (replace s' c by_)
  end.

(** [str(n)] of an integer. *)
Definition str_of_int (n : Z) : string := NilZero.string_of_int (Z.to_int n).

(** Truth value of an object that is [None] or a string. *)
Definition truthy (o : option string) : bool :=
  match o with
  | Some s => negb (String.eqb s "")
  | None => false
  end.

(** [a or b] on such objects. *)
Definition py_or (a b : option string) : option string :=
  if truthy a then a else b.

(** ** JSON bodies *)

(** A parsed JSON document, as [json.loads] returns it.  [JNull] is Python's
    [None].  An object keeps its members in iteration order.  Numbers are
    integers here; a float behaves like an integer wherever the modelled code
    looks at a number (it is not iterable and has no [get]). *)
Inductive Json : Type :=
| JNull
| JBool (b : bool)
| JNum (n : Z)
| JStr (s : string)
| JArr (items : list Json)
| JObj (members : list (string * Json)).

Definition json_truthy (j : Json) : bool :=
  match j with
  | JNull => false
  | JBool b => b
  | JNum n => negb (n =? 0)
  | JStr s => negb (String.eqb s "")
  | JArr items => match items with [] => false | _ => true end
  | JObj members => match members with [] => false | _ => true end
  end.

(** [next(iter(payload))] on a payload that is known to be truthy: the first
    key of a dict, the first item of a list, the first character of a string;
    numbers and booleans are not iterable. *)
Definition json_first (payload : Json) : py Json :=
  match payload with
  | JObj ((k, _) :: _) => Ok (JStr k)
  | JArr (x :: _) => Ok x
  | JStr (String a _) => Ok (JStr (String a EmptyString))
  | _ => Raise TypeError
  end.

Fixpoint assoc (k : string) (members : list (string * Json)) : option Json :=
  match members with
  | [] => None
  | (k', v) :: rest => if String.eqb k' k then Some v else assoc k rest
  end.

(** [payload.get(key)]: only a dict has [get]; a missing key gives [None]. *)
Definition json_get (payload : Json) (key : string) : py Json :=
  match payload with
  | JObj members => Ok (default JNull (assoc key members))
  | _ => Raise AttributeError
  end.

(** ** The pycadf vocabulary *)

(** Modelled from the spec: the constants of [pycadf.cadftaxonomy] and
    [pycadf.cadftype] that the code names.  pycadf is a library outside the
    repository; the values are the verbs and outcomes of the spec. *)
Module taxonomy.
Definition ACTION_CREATE : string := "create".
Definition ACTION_READ : string := "read".
Definition ACTION_LIST : string := "list".
Definition ACTION_UPDATE : string := "update".
Definition ACTION_DELETE : string := "delete".
Definition OUTCOME_SUCCESS : string := "success".
Definition OUTCOME_FAILURE : string := "failure".
Definition UNKNOWN : string := "unknown".
Definition ACCOUNT_USER : string := "service/security/account/user".
End taxonomy.

Module cadftype.
Definition EVENTTYPE_ACTIVITY : string := "activity".
End cadftype.

(** ** Data model *)

(** A node of the compiled grammar: a plain dict, as [_put_hier] creates for
    the inner segments of a hierarchical name, or a [ResourceSpec]
    namedtuple with its five fields. *)
Inductive Node : Type :=
| NDict (items : gmap string Node)
| NSpec (type_uri : string) (el_type_uri : option string) (singleton : bool)
        (custom_actions : gmap string string) (children : gmap string Node).

(** One entry of the raw configuration with the four keys that
    [_parse_resources] reads; [None] is a key that is not there.  Under
    [children] the YAML file has a mapping, kept in the order in which
    [iteritems] yields it, or nothing ([children:] alone, which is Python's
    [None]); [Some None] is the key with nothing under it.  The other three
    keys hold values of their types where they are there. *)
Inductive RawSpec : Type :=
| mkRawSpec (singleton : option bool) (type_uri : option string)
            (custom_actions : option (gmap string string))
            (children : option (option (list (string * option RawSpec)))).

(** A piece of the URL prefix template: literal text or the [{project_id}]
    field, the one field that [_strip_url_prefix] fills in. *)
Inductive piece : Type :=
| Lit (s : string)
| ProjectId.

Fixpoint format (template : list piece) (project_id : string) : string :=
  match template with
  | [] => ""
  | Lit s :: rest => s +:+ format rest project_id
  | ProjectId :: rest => project_id +:+ format rest project_id
  end.

(** The attributes of the middleware object that [__init__] sets. *)
Record Middleware : Type := {
  _service_type : string;
  _service_name : string;
  _prefix_template : list piece;
  _resource_specs : gmap string Node
}.

(** The request as the code reads it.  [json] is [None] when the body is not
    valid JSON, in which case reading the attribute raises [ValueError]. *)
Module Request.
Record t : Type := mk {
  method : string;
  path : string;
  path_qs : string;
  path_url : string;
  environ : gmap string string;
  client_addr : option string;
  user_agent : option string;
  json : option Json
}.
End Request.

Module Response.
Record t : Type := mk {
  status_int : Z;
  json : option Json
}.
End Response.

(** pycadf's [host.Host], [credential.Credential] (through
    [KeystoneCredential]), [reason.Reason] and [resource.Resource] (through
    [ClientResource] for the initiator), each holding the arguments the code
    constructs it with; pycadf is a library outside the repository.  Of what
    its constructors do with the arguments, the generation of an id for a
    resource that is given none is modelled (see [Env]).  Not modelled: the
    validation of the values, for which the program raises [ValueError]
    where this model returns the event, and the masking of the token, so
    that [token] is the argument of the constructor and not the text that
    pycadf stores.  What is proved of the events of all requests of a kind
    is therefore stated for the case that an event is returned, and says
    nothing of the token. *)
Module Host.
Record t : Type := mk { address : option string; agent : option string }.
End Host.

Module KeystoneCredential.
Record t : Type := mk { token : string; identity_status : string }.
End KeystoneCredential.

Module ClientResource.
Record t : Type := mk {
  typeURI : string;
  id : string;
  name : string;
  host : Host.t;
  credential : KeystoneCredential.t;
  project_id : string
}.
End ClientResource.

Module Reason.
Record t : Type := mk { reasonType : string; reasonCode : string }.
End Reason.

(** A target resource.  [id] and [name] are JSON values because the response
    body can supply them; a string [s] is [JStr s] and [None] is [JNull]. *)
Module Resource.
Record t : Type := mk {
  id : Json;
  typeURI : option string;
  name : Json;
  addresses : list string
}.
End Resource.

(** The event.  [id] and [eventTime] are the two fields that pycadf's event
    factory fills in by itself, from [identifier.generate_uuid()] and
    [timestamp.get_utc_now()]; the repository's unit tests rely on the ids of
    two events being different. *)
Module Event.
Record t : Type := mk {
  eventType : string;
  id : string;
  eventTime : string;
  outcome : string;
  action : string;
  initiator : ClientResource.t;
  reason : option Reason.t;
  target : Resource.t;
  requestPath : string
}.

(** [event.target = target] *)
Definition set_target (event : t) (new_target : Resource.t) : t :=
  mk (eventType event) (id event) (eventTime event) (outcome event)
     (action event) (initiator event) (reason event) new_target
     (requestPath event).
End Event.

(** What the process supplies to pycadf during one call of [create_event]:
    the current time and the values of [identifier.generate_uuid()], one for
    each use that pycadf makes of it.  The event factory generates the id of
    the event, and [Resource.__init__] sets the id of a resource to
    [id or identifier.generate_uuid()]: an initiator whose user id is the
    empty string and a target built from a response body without an id get
    a generated one. *)
Record Env : Type := {
  generate_uuid : string;
  get_utc_now : string;
  initiator_uuid : string;
  target_uuid : string
}.

(** [id or identifier.generate_uuid()] *)
Definition resource_id (id : Json) (uuid : string) : Json :=
  if json_truthy id then id else JStr uuid.

(** ** Grammar compiler *)

(** Two facts about [find] and slices, on which the termination of the
    recursions along a string rests. *)
Lemma find_nat_bound (c : ascii) (s : string) (k i : nat) :
  find_nat c s k = Some i → (k ≤ i < String.length s)%nat.
Proof.
  revert k i. induction s as [|a s IH]; intros k i; simpl; [done|].
  destruct k as [|k].
  - destruct (Ascii.eqb a c).
    + intros [= <-]. lia.
    + destruct (find_nat c s 0) as [j|] eqn:E; simpl; [|done].
      intros [= <-]. apply IH in E. lia.
  - destruct (find_nat c s k) as [j|] eqn:E; simpl; [|done].
    intros [= <-]. apply IH in E. lia.
Qed.

Lemma length_substring_le (n m : nat) (s : string) :
  (String.length (substring n m s) ≤ String.length s - n)%nat.
Proof.
  revert n m. induction s as [|a s IH]; intros [|n] [|m]; simpl; try lia.
  - specialize (IH 0%nat m). lia.
  - specialize (IH n 0%nat). lia.
  - specialize (IH n (S m)). lia.
Qed.

Lemma slice_from_shorter (s : string) (p : Z) :
  0 <= p → s ≠ "" →
  (String.length (slice_from s (p + 1)) < String.length s)%nat.
Proof.
  intros Hp Hs. unfold slice_from, slice, clamp, str_len.
  destruct s as [|a s]; [done|].
  destruct (Z.ltb_spec (p + 1) 0) as [E|E]; [lia|].
  destruct (Z.ltb_spec (Z.of_nat (String.length (String a s))) 0) as [E'|E'];
    [lia|].
  match goal with |- (String.length (substring ?n ?m ?t) < _)%nat =>
    pose proof (length_substring_le n m t) as H end.
  simpl String.length in *. lia.
Qed.

Lemma find_empty (c : ascii) (start : Z) : find "" c start = -1.
Proof. reflexivity. Qed.

Definition inspect {A : Type} (a : A) : {b : A | a = b} := exist _ a eq_refl.

(** [_put_hier(dct, hier_name, object)], returning the dict that the Python
    code leaves behind after updating [dct] in place.  [dct] is a dict in the
    first call.  Where the entry under the first segment is a [ResourceSpec],
    the recursive call gets that namedtuple for [dct] and raises [TypeError],
    at [dct[segment]] or at the item assignment, whichever it reaches. *)
Equations? _put_hier (dct : gmap string Node) (hier_name : string) (object : Node)
  : py (gmap string Node) by wf (String.length hier_name) lt :=
_put_hier dct hier_name object with inspect (0 <=? find hier_name "/" 0) := {
  | exist _ true Hpos =>
      let pos := find hier_name "/" 0 in
      let segment := slice hier_name 0 pos in
      let rest := slice_from hier_name (pos + 1) in
      match default (NDict ∅) (dct !! segment) with
      | NDict sub =>
          sub' ← _put_hier sub rest object;
          Ok (<[segment := NDict sub']> dct)
      | NSpec _ _ _ _ _ => Raise TypeError
      end
  | exist _ false _ => Ok (<[hier_name := object]> dct) }.
Proof.
  subst rest pos. apply slice_from_shorter.
  - by apply Z.leb_le.
  - intros ->. by rewrite find_empty in Hpos.
Qed.

(** The [ResourceSpec] that the loop body of [_parse_resources] builds for
    the entry [name], from the values it read from the entry and the compiled
    children. *)
Definition resolved_type_uri (service_type : string) (parentTypeURI : option string)
    (name : string) (type_uri : option string) : string :=
  let pfx := if truthy parentTypeURI then default "" parentTypeURI
             else service_type in
  default (pfx +:+ "/" +:+ name) type_uri.

Definition make_spec (service_type : string) (parentTypeURI : option string)
    (name : string) (singleton : option bool) (type_uri : option string)
    (custom_actions : option (gmap string string))
    (children : gmap string Node) : Node :=
  let singleton := default false singleton in
  let type_uri := resolved_type_uri service_type parentTypeURI name type_uri in
  let el_type_uri :=
    if negb singleton then Some (type_uri +:+ "/" +:+ slice name 0 (-1))
    else None in
  NSpec type_uri el_type_uri singleton (default ∅ custom_actions) children.

(** The loop of [_parse_resources] from a partial [result], with the
    compilation of one entry as a parameter. *)
Fixpoint loop_resources (compile : string → option RawSpec → py Node)
    (res_dict : list (string * option RawSpec)) (result : gmap string Node)
  : py (gmap string Node) :=
  match res_dict with
  | [] => Ok result
  | (name, s) :: rest =>
      spec ← compile name s;
      result' ← _put_hier result name spec;
      loop_resources compile rest result'
  end.

(** The body of the loop for an entry whose value is a mapping.  The
    children are compiled by the recursive call
    [self._parse_resources(spec.get('children', {}), type_uri)]. *)
Fixpoint compile_entry (service_type : string) (parentTypeURI : option string)
    (name : string) (spec : RawSpec) {struct spec} : py Node :=
  match spec with
  | mkRawSpec singleton type_uri custom_actions children =>
      let uri := resolved_type_uri service_type parentTypeURI name type_uri in
      children' ←
        match children with
        | None => Ok ∅
        | Some None => Raise AttributeError   (* None.iteritems() *)
        | Some (Some res_dict) =>
            loop_resources
              (λ name' s,
                 match s with
                 | Some s' => compile_entry service_type (Some uri) name' s'
                 | None => Ok (make_spec service_type (Some uri) name'
                                 None None None ∅)
                 end)
              res_dict ∅
        end;
      Ok (make_spec service_type parentTypeURI name singleton type_uri
            custom_actions children')
  end.

(** One round of the loop: a value that is empty ([None]) is compiled as the
    empty mapping. *)
Definition compile_item (service_type : string) (parentTypeURI : option string)
    (name : string) (s : option RawSpec) : py Node :=
  match s with
  | Some spec => compile_entry service_type parentTypeURI name spec
  | None => Ok (make_spec service_type parentTypeURI name None None None ∅)
  end.

(** [self._parse_resources(res_dict, parentTypeURI)]; [self] is read for
    [_service_type] only. *)
Definition _parse_resources (service_type : string)
    (res_dict : list (string * option RawSpec)) (parentTypeURI : option string)
  : py (gmap string Node) :=
  loop_resources (compile_item service_type parentTypeURI) res_dict ∅.

(** [__init__] on a configuration that has its four keys. *)
Definition init (service_type service_name : string) (prefix : list piece)
    (resources : list (string * option RawSpec)) : py Middleware :=
  specs ← _parse_resources service_type resources None;
  Ok {| _service_type := service_type; _service_name := service_name;
        _prefix_template := prefix; _resource_specs := specs |}.

(** ** Path resolver and event builder *)

#[global] Instance py_fmap : FMap py :=
  λ A B f m, match m with Ok a => Ok (f a) | Raise e => Raise e end.

(** Reading a field of [res_node]: a [ResourceSpec] has the five fields, a
    plain dict has none of them. *)
Definition get_type_uri (res_spec : Node) : py string :=
  match res_spec with
  | NSpec type_uri _ _ _ _ => Ok type_uri
  | NDict _ => Raise AttributeError
  end.

Definition get_el_type_uri (res_spec : Node) : py (option string) :=
  match res_spec with
  | NSpec _ el_type_uri _ _ _ => Ok el_type_uri
  | NDict _ => Raise AttributeError
  end.

Definition get_singleton (res_spec : Node) : py bool :=
  match res_spec with
  | NSpec _ _ singleton _ _ => Ok singleton
  | NDict _ => Raise AttributeError
  end.

Definition get_custom_actions (res_spec : Node) : py (gmap string string) :=
  match res_spec with
  | NSpec _ _ _ custom_actions _ => Ok custom_actions
  | NDict _ => Raise AttributeError
  end.

(** Truth value of a grammar node: a namedtuple of five fields is true, a
    dict is true when it is not empty. *)
Definition node_truthy (n : Node) : bool :=
  match n with
  | NSpec _ _ _ _ _ => true
  | NDict items => negb (bool_decide (items = ∅))
  end.

(** The two kinds of object that reach [_build_target_service_resource], and
    the two attributes it reads.  A request has no [type_uri] and a grammar
    node has no [path_url]. *)
Inductive PyObj : Type :=
| ObjRequest (request : Request.t)
| ObjNode (node : Node).

Definition attr_type_uri (o : PyObj) : py string :=
  match o with
  | ObjNode node => get_type_uri node
  | ObjRequest _ => Raise AttributeError
  end.

Definition attr_path_url (o : PyObj) : py string :=
  match o with
  | ObjRequest request => Ok (Request.path_url request)
  | ObjNode _ => Raise AttributeError
  end.

(** Modelled from the spec: pycadf's [Resource.add_address], which is not
    part of the repository's source.  The spec has the service resource
    carry the path as an address annotation. *)
Definition add_address (target : Resource.t) (addr : string) : Resource.t :=
  Resource.mk (Resource.id target) (Resource.typeURI target)
    (Resource.name target) (Resource.addresses target ++ [addr]).

(** [_build_target_service_resource(self, res_spec, req)] *)
Definition _build_target_service_resource (self : Middleware)
    (res_spec req : PyObj) : py Resource.t :=
  type_uri ← attr_type_uri res_spec;
  let target_type_uri := "service/" +:+ type_uri in
  let target :=
    Resource.mk (JStr (_service_name self)) (Some target_type_uri) JNull [] in
  path_url ← attr_path_url req;
  Ok (add_address target path_url).

(** [res_spec.custom_actions.get(key)] for a key taken from a JSON body: a
    list or a dict is not hashable, and nothing but a string equals a key of
    the table. *)
Definition custom_get (custom_actions : gmap string string) (key : Json)
  : py (option string) :=
  match key with
  | JStr s => Ok (custom_actions !! s)
  | JArr _ | JObj _ => Raise TypeError
  | _ => Ok None
  end.

(** A string operation on [rest_action] ([replace], [+]) needs a string. *)
Definition as_str (v : Json) : py string :=
  match v with
  | JStr s => Ok s
  | _ => Raise TypeError
  end.

(** [_get_custom_action(self, res_spec, action_suffix, request)].  The
    comparison [action is not ''] is read as a comparison with the empty
    string. *)
Definition _get_custom_action (res_spec : Node) (action_suffix : string)
    (request : Request.t) : py (option string) :=
  let mapped (rest_action : Json) : py (option string) :=
    custom_actions ← get_custom_actions res_spec;
    (* check for individual mapping of action *)
    action ← custom_get custom_actions rest_action;
    match action with
    | Some action => Ok (Some action)
    | None =>
        (* check for generic mapping *)
        let action := custom_actions !! "*" in
        if truthy action then
          tok ← as_str rest_action;
          Ok (Some (replace (default "" action) "*" tok))
        else if bool_decide (custom_actions = ∅) then
          (* use defaults if no custom action mapping exists *)
          tok ← as_str rest_action;
          Ok (Some (taxonomy.ACTION_UPDATE +:+ "/" +:+ tok))
        else Ok None
    end in
  if String.eqb action_suffix "action" then
    match Request.json request with
    | None => Ok None
    | Some payload =>
        if json_truthy payload then
          rest_action ← json_first payload;
          mapped rest_action
        else Ok None
    end
  else mapped (JStr action_suffix).

(** [_get_action(self, res_spec, res_id, request, action_suffix)] *)
Definition _get_action (res_spec : Node) (res_id : option string)
    (request : Request.t) (action_suffix : option string) : py (option string) :=
  let method := Request.method request in
  if String.eqb method "POST" then
    match action_suffix with
    | None => Ok (Some taxonomy.ACTION_CREATE)
    | Some suffix => _get_custom_action res_spec suffix request
    end
  else if String.eqb method "GET" then
    match action_suffix with
    | None => Ok (Some (if truthy res_id then taxonomy.ACTION_READ
                        else taxonomy.ACTION_LIST))
    | Some suffix => _get_custom_action res_spec suffix request
    end
  else if String.eqb method "PUT" || String.eqb method "PATCH" then
    Ok (Some taxonomy.ACTION_UPDATE)
  else if String.eqb method "DELETE" then Ok (Some taxonomy.ACTION_DELETE)
  else if String.eqb method "HEAD" then Ok (Some taxonomy.ACTION_READ)
  else Ok None.

(** [request.environ.get('HTTP_X_PROJECT_ID') or
     request.environ.get('HTTP_X_DOMAIN_ID', taxonomy.UNKNOWN)] *)
Definition project_or_domain_id (request : Request.t) : string :=
  let environ := Request.environ request in
  default "" (py_or (environ !! "HTTP_X_PROJECT_ID")
                (Some (default taxonomy.UNKNOWN (environ !! "HTTP_X_DOMAIN_ID")))).

(** The outcome and the reason that [_create_event] derives from the
    response. *)
Definition action_result (response : option Response.t) : string :=
  match response with
  | Some response =>
      if (200 <=? Response.status_int response)
         && (Response.status_int response <? 400)
      then taxonomy.OUTCOME_SUCCESS
      else taxonomy.OUTCOME_FAILURE
  | None => taxonomy.UNKNOWN
  end.

Definition event_reason (response : option Response.t) : option Reason.t :=
  match response with
  | Some response =>
      Some (Reason.mk "HTTP" (str_of_int (Response.status_int response)))
  | None => None
  end.

(** [_create_event(self, res_spec, res_id, request, response,
    action_suffix)].  The call of [_build_target_service_resource] passes
    the request first and the spec second, as the source does.  The id of
    the initiator is the one that [ClientResource(id=...)] ends up with:
    pycadf replaces an empty user id by a generated one. *)
Definition _create_event (env : Env) (self : Middleware) (res_spec : Node)
    (res_id : option string) (request : Request.t)
    (response : option Response.t) (action_suffix : option string)
  : py (option Event.t) :=
  action ← _get_action res_spec res_id request action_suffix;
  if negb (truthy action) then Ok None   (* skip if action filtered out *)
  else
    let action := default "" action in
    let environ := Request.environ request in
    let initiator :=
      ClientResource.mk
        taxonomy.ACCOUNT_USER
        (let id := default taxonomy.UNKNOWN (environ !! "HTTP_X_USER_ID") in
         if String.eqb id "" then initiator_uuid env else id)
        (default taxonomy.UNKNOWN (environ !! "HTTP_X_USER_NAME"))
        (Host.mk (Request.client_addr request) (Request.user_agent request))
        (KeystoneCredential.mk
           (default "" (environ !! "HTTP_X_AUTH_TOKEN"))
           (default taxonomy.UNKNOWN (environ !! "HTTP_X_IDENTITY_STATUS")))
        (project_or_domain_id request) in
    target ←
      (if truthy res_id then
         collection ← (if String.eqb action taxonomy.ACTION_LIST then Ok true
                       else get_singleton res_spec);
         rtype ← (if collection : bool then Some <$> get_type_uri res_spec
                  else get_el_type_uri res_spec);
         Ok (Resource.mk (JStr (default "" res_id)) rtype JNull [])
       else
         (* use the service as resource if element has been addressed *)
         _build_target_service_resource self (ObjRequest request)
           (ObjNode res_spec));
    Ok (Some (Event.mk cadftype.EVENTTYPE_ACTIVITY
                (generate_uuid env) (get_utc_now env)
                (action_result response) action initiator
                (event_reason response) target
                (Request.path_qs request))).

(** [_strip_url_prefix(self, request)] *)
Definition _strip_url_prefix (self : Middleware) (request : Request.t)
  : option string :=
  let prefix := format (_prefix_template self) (project_or_domain_id request) in
  if startswith (Request.path request) prefix
  then Some (slice_from (Request.path request) (str_len prefix))
  else None.

(** The end of [_build_event]: the path is used up ([cursor == -1]), the
    event is created and, for a [POST] with a response body, its target is
    replaced.  The id of the new target is the one that
    [resource.Resource(payload.get('id'), ...)] ends up with: pycadf
    replaces an id that is missing, or false as a Python object, by a
    generated one. *)
Definition end_of_path (env : Env) (self : Middleware) (res_node : Node)
    (res_id res_parent_id : option string) (request : Request.t)
    (response : option Response.t) : py (option Event.t) :=
  event ← _create_event env self res_node (py_or res_id res_parent_id)
            request response None;
  if String.eqb (Request.method request) "POST" then
    match response with
    | None => Ok event
    | Some response' =>
        match Response.json response' with
        | None => Raise ValueError
        | Some payload =>
            if json_truthy payload then
              name ← json_get payload "name";
              name ← match name with
                     | JNull => json_get payload "displayName"
                     | _ => Ok name
                     end;
              id ← json_get payload "id";
              type_uri ← get_type_uri res_node;
              match event with
              | Some event =>
                  Ok (Some (Event.set_target event
                              (Resource.mk (resource_id id (target_uuid env))
                                 (Some type_uri) name [])))
              | None => Raise AttributeError
              end
            else Ok event
        end
    end
  else Ok event.

(** The distance that [cursor] still has to go: nothing at [-1], and from an
    index that counts from the end further than from any index that counts
    from the start. *)
Definition distance (path : string) (cursor : Z) : nat :=
  if cursor =? -1 then 0%nat
  else if cursor <? 0 then (String.length path + 2)%nat
  else (Z.to_nat (str_len path - cursor) + 1)%nat.

Lemma find_advances (path : string) (cursor : Z) :
  (cursor =? -1) = false →
  (distance path (find path "/" (cursor + 1)) < distance path cursor)%nat.
Proof.
  intros Hc. apply Z.eqb_neq in Hc. unfold find.
  destruct (find_nat _ _ _) as [i|] eqn:E.
  - apply find_nat_bound in E. revert E. unfold distance, clamp, str_len.
    destruct (Z.eqb_spec (Z.of_nat i) (-1)) as [?|_]; [lia|].
    destruct (Z.ltb_spec (Z.of_nat i) 0) as [?|_]; [lia|].
    destruct (Z.eqb_spec cursor (-1)) as [?|_]; [done|].
    destruct (Z.ltb_spec cursor 0) as [?|?],
             (Z.ltb_spec (cursor + 1) 0) as [?|?]; lia.
  - unfold distance. simpl.
    destruct (Z.eqb_spec cursor (-1)) as [?|_]; [done|].
    destruct (cursor <? 0); lia.
Qed.

(** [_build_event(self, res_node, res_id, res_parent_id, request, response,
    path, cursor)] *)
Equations? _build_event (env : Env) (self : Middleware) (res_node : Node)
    (res_id res_parent_id : option string) (request : Request.t)
    (response : option Response.t) (path : string) (cursor : Z)
  : py (option Event.t) by wf (distance path cursor) lt :=
_build_event env self res_node res_id res_parent_id request response path cursor
  with inspect (cursor =? -1) := {
  | exist _ true _ =>
      (* end of path reached, create the event *)
      end_of_path env self res_node res_id res_parent_id request response
  | exist _ false Hc =>
      (* Find next path segment (skip leading / with +1) *)
      let next_pos := find path "/" (cursor + 1) in
      let token := if negb (next_pos =? -1) then slice path (cursor + 1) next_pos
                   else slice_from path (cursor + 1) in
      match res_node with
      | NDict items =>
          (* the node contains a dict => handle token as resource name *)
          match items !! token with
          | None => Ok None
          | Some res_node' =>
              _build_event env self res_node' None None request response
                path next_pos
          end
      | NSpec _ _ singleton _ children =>
          if truthy res_id || singleton then
            let otherwise :=
              if next_pos =? -1 then
                (* this must be an action *)
                _create_event env self res_node (py_or res_id res_parent_id)
                  request response (Some token)
              else Ok None in
            match children !! token with
            | Some child_res =>
                if node_truthy child_res then
                  (* the ID is still the one of the parent *)
                  _build_event env self child_res None
                    (py_or res_id res_parent_id) request response path next_pos
                else otherwise
            | None => otherwise
            end
          else
            (* next up should be an ID *)
            _build_event env self res_node (Some token) res_parent_id request
              response path next_pos
      end }.
Proof.
  all: subst next_pos; by apply find_advances.
Qed.

(** [create_event(self, request, response=None)].  [_strip_url_prefix]
    returns [None] for a path without the prefix, and [None] has no
    [endswith]. *)
Definition create_event (env : Env) (self : Middleware) (request : Request.t)
    (response : option Response.t) : py (option Event.t) :=
  (* drop the endpoint's path prefix *)
  match _strip_url_prefix self request with
  | None => Raise AttributeError
  | Some path =>
      let path := if endswith path "/" then slice path 0 (-1) else path in
      _build_event env self (NDict (_resource_specs self)) None None request
        response path 0
  end.

(** ** The behaviour that the specification describes *)

(** The methods that the table of action derivation tells apart. *)
Inductive Method : Type := POST | GET | PUT | PATCH | DELETE | HEAD | OtherMethod.

Definition method_of (m : string) : Method :=
  if decide (m = "POST") then POST
  else if decide (m = "GET") then GET
  else if decide (m = "PUT") then PUT
  else if decide (m = "PATCH") then PATCH
  else if decide (m = "DELETE") then DELETE
  else if decide (m = "HEAD") then HEAD
  else OtherMethod.

(** [determineAction] as the specification tabulates it: a function of the
    method, of whether an instance id is bound, and of the optional suffix
    token, with the custom-action lookup as a parameter.  [PUT], [PATCH],
    [DELETE] and [HEAD] do not look at the suffix. *)
Definition determineAction (method : Method) (id_bound : bool)
    (suffix : option string) (custom : string → py (option string))
  : py (option string) :=
  match method, suffix with
  | POST, None => Ok (Some "create")
  | POST, Some token => custom token
  | GET, None => Ok (Some (if id_bound then "read" else "list"))
  | GET, Some token => custom token
  | PUT, _ | PATCH, _ => Ok (Some "update")
  | DELETE, _ => Ok (Some "delete")
  | HEAD, _ => Ok (Some "read")
  | OtherMethod, _ => Ok None
  end.

(** The raw action token of the specification: the trailing path segment,
    or the first key of the parsed request body when that segment is the
    word "action". *)
Definition raw_action_token (action_suffix : string) (request : Request.t)
  : option string :=
  if decide (action_suffix = "action") then
    match Request.json request with
    | Some (JObj ((key, _) :: _)) => Some key
    | _ => None
    end
  else Some action_suffix.

(** The custom-action lookup of the specification, in its order: the exact
    entry as it is; else the wildcard entry, which is a template when it is
    not empty and a suppression when it is; else the default verb when the
    resource has no table, and nothing when it has one. *)
Definition customActionLookup (table : gmap string string) (token : string)
  : option string :=
  match table !! token with
  | Some verb => Some verb
  | None =>
      match table !! "*" with
      | Some template =>
          if decide (template = "") then None
          else Some (replace template "*" token)
      | None =>
          if decide (table = ∅) then Some ("update/" +:+ token) else None
      end
  end.






(** The name that the [POST] override reads from a response body: [name],
    and [displayName] when there is no [name] or it is null. *)
Definition payload_name (members : list (string * Json)) : Json :=
  match default JNull (assoc "name" members) with
  | JNull => default JNull (assoc "displayName" members)
  | name => name
  end.

(** ** Examples to evaluate the code on *)

Definition example_env : Env :=
  {| generate_uuid := "uuid-1"; get_utc_now := "t1";
     initiator_uuid := "uuid-0"; target_uuid := "uuid-9" |}.

(** The grammar of the configuration [{servers: {}}] under the service type
    [compute]. *)
Definition servers_spec : Node :=
  NSpec "compute/servers" (Some "compute/servers/server") false ∅ ∅.

Definition example_middleware : Middleware :=
  {| _service_type := "compute"; _service_name := "nova";
     _prefix_template := [Lit "/v2/"; ProjectId];
     _resource_specs := {[ "servers" := servers_spec ]} |}.

(** A request of the project [p1] without user headers. *)
Definition example_request (method path : string) (body : option Json)
  : Request.t :=
  Request.mk method path path ("http://host" +:+ path)
    {[ "HTTP_X_PROJECT_ID" := "p1" ]} None None body.

(** ** The grammar as a tree *)

(** What an entry of the raw configuration says for each of the keys. *)
Definition raw_singleton (s : option RawSpec) : option bool :=
  match s with Some (mkRawSpec singleton _ _ _) => singleton | None => None end.

Definition raw_type_uri (s : option RawSpec) : option string :=
  match s with Some (mkRawSpec _ type_uri _ _) => type_uri | None => None end.

Definition raw_custom_actions (s : option RawSpec)
  : option (gmap string string) :=
  match s with
  | Some (mkRawSpec _ _ custom_actions _) => custom_actions
  | None => None
  end.

Definition raw_children_key (s : option RawSpec)
  : option (option (list (string * option RawSpec))) :=
  match s with Some (mkRawSpec _ _ _ children) => children | None => None end.

(** The mapping under [children], where there is one. *)
Definition raw_children (s : option RawSpec)
  : option (list (string * option RawSpec)) :=
  mjoin (raw_children_key s).

(** [within root n]: the node [n] is [root] or lies below it, under a key of
    a plain dict or among the children of a [ResourceSpec]. *)
Inductive within : Node → Node → Prop :=
| within_here (n : Node) : within n n
| within_item (items : gmap string Node) (key : string) (m n : Node) :
    items !! key = Some m → within m n → within (NDict items) n
| within_child (type_uri : string) (el_type_uri : option string)
    (singleton : bool) (custom_actions : gmap string string)
    (children : gmap string Node) (key : string) (m n : Node) :
    children !! key = Some m → within m n →
    within (NSpec type_uri el_type_uri singleton custom_actions children) n.

(** [entry_of service_type p res_dict parent name s]: when [res_dict] is
    compiled under the parent type URI [p], the entry [name] with the value
    [s] is compiled under the parent type URI [parent]; it is an entry of
    [res_dict] itself or of the children of one, whose parent is then the
    resolved type URI of that one. *)
Inductive entry_of (service_type : string)
  : option string → list (string * option RawSpec) →
    option string → string → option RawSpec → Prop :=
| entry_top (p : option string) (res_dict : list (string * option RawSpec))
    (name : string) (s : option RawSpec) :
    (name, s) ∈ res_dict → entry_of service_type p res_dict p name s
| entry_below (p : option string) (res_dict : list (string * option RawSpec))
    (name : string) (s : option RawSpec)
    (children : list (string * option RawSpec))
    (parent : option string) (name' : string) (s' : option RawSpec) :
    (name, s) ∈ res_dict → raw_children s = Some children →
    entry_of service_type
      (Some (resolved_type_uri service_type p name (raw_type_uri s)))
      children parent name' s' →
    entry_of service_type p res_dict parent name' s'.

Definition is_spec (n : Node) : Prop :=
  match n with NSpec _ _ _ _ _ => True | NDict _ => False end.

(** The fields that the compiler gives to the [ResourceSpec] of the entry
    [name] with the value [s] under the parent type URI [parent]. *)
Definition spec_of_entry (service_type : string) (parent : option string)
    (name : string) (s : option RawSpec) (n : Node) : Prop :=
  match n with
  | NSpec type_uri el_type_uri singleton _ _ =>
      singleton = default false (raw_singleton s)
      ∧ type_uri
        = default ((if truthy parent then default "" parent else service_type)
                   +:+ "/" +:+ name) (raw_type_uri s)
      ∧ el_type_uri
        = (if singleton then None
           else Some (type_uri +:+ "/" +:+ slice name 0 (-1)))
  | NDict _ => False
  end.

Definition originates (service_type : string) (p : option string)
    (res_dict : list (string * option RawSpec)) (n : Node) : Prop :=
  ∃ parent name s,
    entry_of service_type p res_dict parent name s
    ∧ spec_of_entry service_type parent name s n.

(** [name.split('/')], cut the way [_put_hier] cuts a hierarchical name. *)
Equations? segments (name : string) : list string
  by wf (String.length name) lt :=
segments name with inspect (0 <=? find name "/" 0) := {
  | exist _ true Hpos =>
      slice name 0 (find name "/" 0)
      :: segments (slice_from name (find name "/" 0 + 1))
  | exist _ false _ => [name] }.
Proof.
  apply slice_from_shorter.
  - by apply Z.leb_le.
  - intros ->. by rewrite find_empty in Hpos.
Qed.

(** [root[k1][k2]...[kn]], going through plain dicts only. *)
Fixpoint descend (root : Node) (keys : list string) : option Node :=
  match keys with
  | [] => Some root
  | key :: rest =>
      match root with
      | NDict items => items !! key ≫= λ m, descend m rest
      | NSpec _ _ _ _ _ => None
      end
  end.

(** The grammar of the configuration [{"a/b/c": {}}] and the two ways of
    writing the nesting by hand: through [children], and as mappings put
    directly under [a], whose keys [_parse_resources] never reads. *)
Definition hierarchical_raw : list (string * option RawSpec) :=
  [("a/b/c", None)].

Definition nested_raw : list (string * option RawSpec) :=
  [("a", Some (mkRawSpec None None None
       (Some (Some [("b", Some (mkRawSpec None None None
                (Some (Some [("c", None)]))))]))))].

Definition literal_raw : list (string * option RawSpec) :=
  [("a", Some (mkRawSpec None None None None))].

(** An entry with a child under the hierarchical key [a/b], and the grammar
    of the configuration that has this entry alone. *)
Definition placed_entry : option RawSpec :=
  Some (mkRawSpec None None None (Some (Some [("c", None)]))).

Definition placed_grammar : gmap string Node :=
  {[ "a" :=
       NDict {[ "b" :=
         NSpec "compute/a/b" (Some "compute/a/b/a/") false ∅
           {[ "c" := NSpec "compute/a/b/c" (Some "compute/a/b/c/") false ∅
                       ∅ ]} ]} ]}.

(** A parent with an empty type URI. *)
Definition empty_parent_raw : list (string * option RawSpec) :=
  [("a", Some (mkRawSpec None (Some "") None (Some (Some [("b", None)]))))].

(** ** The walk along a path, by segments *)

(** The descent of [_build_event], written over the list of the segments
    that are still to be read instead of a cursor into the path: the empty
    list is the end of the path ([cursor == -1]), and the last segment is
    the one after which [find] gives [-1].  That the two agree is proved
    below. *)
Fixpoint walk (env : Env) (self : Middleware) (res_node : Node)
    (res_id res_parent_id : option string) (request : Request.t)
    (response : option Response.t) (tokens : list string)
  : py (option Event.t) :=
  match tokens with
  | [] => end_of_path env self res_node res_id res_parent_id request response
  | token :: rest =>
      match res_node with
      | NDict items =>
          match items !! token with
          | None => Ok None
          | Some res_node' =>
              walk env self res_node' None None request response rest
          end
      | NSpec _ _ singleton _ children =>
          if truthy res_id || singleton then
            let otherwise :=
              match rest with
              | [] => _create_event env self res_node
                        (py_or res_id res_parent_id) request response
                        (Some token)
              | _ :: _ => Ok None
              end in
            match children !! token with
            | Some child_res =>
                if node_truthy child_res then
                  walk env self child_res None (py_or res_id res_parent_id)
                    request response rest
                else otherwise
            | None => otherwise
            end
          else
            walk env self res_node (Some token) res_parent_id request
              response rest
      end
  end.

(** The segments that [create_event] hands to the descent: the path without
    the URL prefix and without one trailing slash, cut at the slashes after
    its first character.  [None] where the path has not the prefix. *)
Definition path_tokens (self : Middleware) (request : Request.t)
  : option (list string) :=
  match _strip_url_prefix self request with
  | None => None
  | Some path =>
      let path := if endswith path "/" then slice path 0 (-1) else path in
      Some (segments (slice_from path 1))
  end.

(** A string without a slash. *)
Fixpoint no_slash (s : string) : bool :=
  match s with
  | EmptyString => true
  | String a s' => negb (Ascii.eqb a "/") && no_slash s'
  end.

(** ['/'.join(keys)] *)
Fixpoint join_slash (keys : list string) : string :=
  match keys with
  | [] => ""
  | [key] => key
  | key :: rest => key +:+ "/" +:+ join_slash rest
  end.

(** The last character of a string. *)
Fixpoint last_char (s : string) : option ascii :=
  match s with
  | EmptyString => None
  | String a EmptyString => Some a
  | String _ s' => last_char s'
  end.

(** ** The event of a request *)

(** The target of a request that binds the id [res_id] on a resource with
    the type URI [typeURI]. *)
Definition target_of (res_id : string) (typeURI : option string) : Resource.t :=
  Resource.mk (JStr res_id) typeURI JNull [].

(** The verb of a method that does not look at a suffix, and of [GET] on a
    bound id. *)
Definition crud_verb (method : Method) : option string :=
  match method with
  | GET | HEAD => Some "read"
  | PUT | PATCH => Some "update"
  | DELETE => Some "delete"
  | POST | OtherMethod => None
  end.

(** The grammar of servers with the child collection [volumes]. *)
Definition volumes_spec : Node :=
  NSpec "compute/servers/volumes" (Some "compute/servers/volumes/volume")
    false ∅ ∅.

Definition nested_middleware : Middleware :=
  {| _service_type := "compute"; _service_name := "nova";
     _prefix_template := [Lit "/v2/"; ProjectId];
     _resource_specs :=
       {[ "servers" :=
            NSpec "compute/servers" (Some "compute/servers/server") false ∅
              {[ "volumes" := volumes_spec ]} ]} |}.

(** A raw configuration in which every [children] key, at any depth, holds a
    mapping. *)
Fixpoint mappings_spec (r : RawSpec) : bool :=
  match r with
  | mkRawSpec _ _ _ children =>
      match children with
      | None => true
      | Some None => false
      | Some (Some res_dict) =>
          forallb (λ x : string * option RawSpec,
                     let '(_, s) := x in
                     match s with
                     | Some r' => mappings_spec r'
                     | None => true
                     end)
                  res_dict
      end
  end.

Definition mappings_item (s : option RawSpec) : bool :=
  match s with Some r => mappings_spec r | None => true end.

Definition mappings_dict (res_dict : list (string * option RawSpec)) : bool :=
  forallb (λ x, mappings_item x.2) res_dict.

(** A raw configuration none of whose names, at any depth, has a slash, and
    in which every [children] key holds a mapping. *)
Fixpoint flat_spec (r : RawSpec) : bool :=
  match r with
  | mkRawSpec _ _ _ children =>
      match children with
      | None => true
      | Some None => false
      | Some (Some res_dict) =>
          forallb (λ x : string * option RawSpec,
                     let '(name, s) := x in
                     no_slash name
                     && match s with
                        | Some r' => flat_spec r'
                        | None => true
                        end)
                  res_dict
      end
  end.

Definition flat_item (x : string * option RawSpec) : bool :=
  no_slash x.1 && match x.2 with Some r => flat_spec r | None => true end.

Definition flat_dict (res_dict : list (string * option RawSpec)) : bool :=
  forallb flat_item res_dict.

(** A node all of whose nodes, itself included, are true as Python
    objects. *)
Definition all_truthy (n : Node) : Prop :=
  ∀ m, within n m → node_truthy m = true.

(** * Properties *)

(** Case analysis on a computation in the error monad. *)
Ltac py_cases :=
  repeat first
    [ progress simplify_eq/=
    | progress unfold mbind, py_bind in *
    | progress unfold fmap, py_fmap in *
    | case_match ].

(** ** Unfolding of the recursive definitions *)

Lemma _put_hier_eq (dct : gmap string Node) (hier_name : string) (object : Node) :
  _put_hier dct hier_name object =
  let pos := find hier_name "/" 0 in
  if 0 <=? pos then
    let segment := slice hier_name 0 pos in
    let rest := slice_from hier_name (pos + 1) in
    match default (NDict ∅) (dct !! segment) with
    | NDict sub =>
        sub' ← _put_hier sub rest object;
        Ok (<[segment := NDict sub']> dct)
    | NSpec _ _ _ _ _ => Raise TypeError
    end
  else Ok (<[hier_name := object]> dct).
Proof.
  funelim (_put_hier dct hier_name object).
  - by rewrite Hpos.
  - by rewrite e.
Qed.

Lemma _build_event_unfolded (env : Env) (self : Middleware) (res_node : Node)
    (res_id res_parent_id : option string) (request : Request.t)
    (response : option Response.t) (path : string) (cursor : Z) :
  _build_event env self res_node res_id res_parent_id request response path cursor
  = if cursor =? -1 then
      end_of_path env self res_node res_id res_parent_id request response
    else
      let next_pos := find path "/" (cursor + 1) in
      let token := if negb (next_pos =? -1) then slice path (cursor + 1) next_pos
                   else slice_from path (cursor + 1) in
      match res_node with
      | NDict items =>
          match items !! token with
          | None => Ok None
          | Some res_node' =>
              _build_event env self res_node' None None request response
                path next_pos
          end
      | NSpec _ _ singleton _ children =>
          if truthy res_id || singleton then
            let otherwise :=
              if next_pos =? -1 then
                _create_event env self res_node (py_or res_id res_parent_id)
                  request response (Some token)
              else Ok None in
            match children !! token with
            | Some child_res =>
                if node_truthy child_res then
                  _build_event env self child_res None
                    (py_or res_id res_parent_id) request response path next_pos
                else otherwise
            | None => otherwise
            end
          else
            _build_event env self res_node (Some token) res_parent_id request
              response path next_pos
      end.
Proof.
  funelim (_build_event env self res_node res_id res_parent_id request
             response path cursor).
  - by rewrite e.
  - by rewrite Hc.
Qed.

Lemma _build_event_end (env : Env) (self : Middleware) (res_node : Node)
    (res_id res_parent_id : option string) (request : Request.t)
    (response : option Response.t) (path : string) :
  _build_event env self res_node res_id res_parent_id request response path (-1)
  = end_of_path env self res_node res_id res_parent_id request response.
Proof. by rewrite _build_event_unfolded. Qed.

Lemma _build_event_eq (env : Env) (self : Middleware) (res_node : Node)
    (res_id res_parent_id : option string) (request : Request.t)
    (response : option Response.t) (path : string) (cursor : Z) :
  cursor ≠ -1 →
  _build_event env self res_node res_id res_parent_id request response path cursor
  = let next_pos := find path "/" (cursor + 1) in
    let token := if negb (next_pos =? -1) then slice path (cursor + 1) next_pos
                 else slice_from path (cursor + 1) in
    match res_node with
    | NDict items =>
        match items !! token with
        | None => Ok None
        | Some res_node' =>
            _build_event env self res_node' None None request response
              path next_pos
        end
    | NSpec _ _ singleton _ children =>
        if truthy res_id || singleton then
          let otherwise :=
            if next_pos =? -1 then
              _create_event env self res_node (py_or res_id res_parent_id)
                request response (Some token)
            else Ok None in
          match children !! token with
          | Some child_res =>
              if node_truthy child_res then
                _build_event env self child_res None
                  (py_or res_id res_parent_id) request response path next_pos
              else otherwise
          | None => otherwise
          end
        else
          _build_event env self res_node (Some token) res_parent_id request
            response path next_pos
    end.
Proof.
  intros Hc. rewrite _build_event_unfolded.
  by destruct (Z.eqb_spec cursor (-1)).
Qed.

(** Every event that [_build_event] returns was built by [_create_event]
    for the same request and response, and then at most had its target
    replaced. *)
Lemma _build_event_built (env : Env) (self : Middleware) (request : Request.t)
    (response : option Response.t) (path : string) (Q : Event.t → Prop) :
  (∀ res_spec res_id action_suffix event,
     _create_event env self res_spec res_id request response action_suffix
       = Ok (Some event) → Q event) →
  (∀ event target, Q event → Q (Event.set_target event target)) →
  ∀ cursor res_node res_id res_parent_id event,
    _build_event env self res_node res_id res_parent_id request response
      path cursor = Ok (Some event) → Q event.
Proof.
  intros Hcreate Htarget cursor.
  remember (distance path cursor) as d eqn:Hd. revert cursor Hd.
  induction d as [d IH] using lt_wf_ind.
  intros cursor -> res_node res_id res_parent_id event.
  destruct (decide (cursor = -1)) as [->|Hc].
  - rewrite _build_event_end. unfold end_of_path.
    destruct (_create_event _ _ _ _ _ _ _) as [[ev0|]|e] eqn:E; simpl.
    + intros H. apply Hcreate in E. py_cases; eauto.
    + intros H. py_cases.
    + done.
  - rewrite _build_event_eq by done. cbv zeta.
    assert (IH' : ∀ n i p ev,
      _build_event env self n i p request response path
        (find path "/" (cursor + 1)) = Ok (Some ev) → Q ev).
    { intros n i p ev. eapply IH; [|reflexivity].
      apply find_advances. by apply Z.eqb_neq. }
    intros H. py_cases; eauto.
Qed.

(** ** Action derivation *)

Lemma _create_event_filtered (env : Env) (self : Middleware) (res_spec : Node)
    (res_id : option string) (request : Request.t)
    (response : option Response.t) (action_suffix action : option string) :
  _get_action res_spec res_id request action_suffix = Ok action →
  truthy action = false →
  _create_event env self res_spec res_id request response action_suffix = Ok None.
Proof. intros Ha Ht. unfold _create_event. rewrite Ha. simpl. by rewrite Ht. Qed.

Lemma method_of_eqb (m : string) :
  method_of m =
  if String.eqb m "POST" then POST
  else if String.eqb m "GET" then GET
  else if String.eqb m "PUT" then PUT
  else if String.eqb m "PATCH" then PATCH
  else if String.eqb m "DELETE" then DELETE
  else if String.eqb m "HEAD" then HEAD
  else OtherMethod.
Proof.
  unfold method_of.
  repeat (case_decide; [subst; reflexivity|]).
  repeat match goal with
         | |- context [String.eqb ?a ?b] =>
             destruct (String.eqb_spec a b); [done|]
         end.
  reflexivity.
Qed.

(** [_get_action] is the table of the specification. *)
Lemma _get_action_table (res_spec : Node) (res_id : option string)
    (request : Request.t) (action_suffix : option string) :
  _get_action res_spec res_id request action_suffix
  = determineAction (method_of (Request.method request)) (truthy res_id)
      action_suffix (λ token, _get_custom_action res_spec token request).
Proof.
  unfold _get_action. cbv zeta. rewrite method_of_eqb.
  destruct (String.eqb _ "POST"); [by destruct action_suffix|].
  destruct (String.eqb _ "GET");
    [by destruct action_suffix, (truthy res_id)|].
  destruct (String.eqb _ "PUT"); [by destruct action_suffix|].
  destruct (String.eqb _ "PATCH"); [by destruct action_suffix|].
  destruct (String.eqb _ "DELETE"); [by destruct action_suffix|].
  destruct (String.eqb _ "HEAD"); by destruct action_suffix.
Qed.

(** C1.  [_get_action] computes the [determineAction] of the specification:
    the action is a function of the method, of whether an id is bound and of
    the suffix token; [POST] and [GET] with a suffix give the result of the
    custom-action lookup; and for a method outside the table there is no
    action and [_create_event] builds no event. *)
Theorem get_action_determineAction (env : Env) (self : Middleware)
    (res_spec : Node) (res_id : option string) (request : Request.t)
    (response : option Response.t) (action_suffix : option string) :
  _get_action res_spec res_id request action_suffix
  = determineAction (method_of (Request.method request)) (truthy res_id)
      action_suffix (λ token, _get_custom_action res_spec token request)
  ∧ (method_of (Request.method request) = OtherMethod →
     _create_event env self res_spec res_id request response action_suffix
     = Ok None).
Proof.
  split; [apply _get_action_table|]. intros Hother.
  apply _create_event_filtered with (action := None); [|done].
  rewrite _get_action_table, Hother. by destruct action_suffix.
Qed.

Lemma get_action_determineAction_witness :
  _create_event example_env example_middleware servers_spec (Some "abc")
    (example_request "OPTIONS" "/v2/p1/servers/abc" None) None None = Ok None.
Proof.
  apply (proj2 (get_action_determineAction example_env example_middleware
                  servers_spec (Some "abc")
                  (example_request "OPTIONS" "/v2/p1/servers/abc" None)
                  None None)).
  reflexivity.
Defined.

(** ** Custom-action lookup *)

Lemma raw_action_token_mapped (res_spec : Node) (action_suffix : string)
    (request : Request.t) (token : string) :
  raw_action_token action_suffix request = Some token →
  _get_custom_action res_spec action_suffix request
  = custom_actions ← get_custom_actions res_spec;
    match custom_actions !! token with
    | Some action => Ok (Some action)
    | None =>
        if truthy (custom_actions !! "*") then
          Ok (Some (replace (default "" (custom_actions !! "*")) "*" token))
        else if bool_decide (custom_actions = ∅) then
          Ok (Some (taxonomy.ACTION_UPDATE +:+ "/" +:+ token))
        else Ok None
    end.
Proof.
  unfold raw_action_token, _get_custom_action. intros Htok.
  case_decide as Hs.
  - subst action_suffix. simpl.
    destruct (Request.json request) as [[| | | | |[|[key v] members]]|];
      simplify_eq/=.
    destruct (get_custom_actions res_spec); simpl; [|done].
    by destruct (_ !! token).
  - injection Htok as ->. apply String.eqb_neq in Hs. rewrite Hs.
    destruct (get_custom_actions res_spec); simpl; [|done].
    by destruct (_ !! token).
Qed.

Lemma get_custom_action_lookup (type_uri : string) (el_type_uri : option string)
    (singleton : bool) (custom_actions : gmap string string)
    (children : gmap string Node) (action_suffix : string)
    (request : Request.t) (token : string) :
  raw_action_token action_suffix request = Some token →
  _get_custom_action
    (NSpec type_uri el_type_uri singleton custom_actions children)
    action_suffix request
  = Ok (customActionLookup custom_actions token).
Proof.
  intros Htok. rewrite (raw_action_token_mapped _ _ _ _ Htok). simpl.
  unfold customActionLookup.
  destruct (custom_actions !! token) as [verb|]; [done|].
  destruct (custom_actions !! "*") as [template|] eqn:Hstar; simpl.
  - case_decide as Ht.
    + subst template. simpl. rewrite bool_decide_eq_false_2; [done|].
      intros ->. by rewrite lookup_empty in Hstar.
    + apply String.eqb_neq in Ht. by rewrite Ht.
  - rewrite bool_decide_decide. by destruct (decide _).
Qed.

(** C2.  For a [ResourceSpec] and a raw action token, [_get_custom_action]
    is the lookup of the specification: the exact entry as it is, else the
    non-empty wildcard entry with every [*] replaced by the token, else
    [update/<token>] when the table is empty and nothing when it is not;
    and where the result is nothing or the empty string, a [POST] or [GET]
    with that suffix builds no event. *)
Theorem custom_action_lookup_order (env : Env) (self : Middleware)
    (type_uri : string) (el_type_uri : option string)
    (singleton : bool) (custom_actions : gmap string string)
    (children : gmap string Node) (res_id : option string)
    (action_suffix : string) (request : Request.t)
    (response : option Response.t) (token : string) :
  raw_action_token action_suffix request = Some token →
  let res_spec := NSpec type_uri el_type_uri singleton custom_actions children in
  _get_custom_action res_spec action_suffix request
  = Ok (customActionLookup custom_actions token)
  ∧ ((Request.method request = "POST" ∨ Request.method request = "GET") →
     (customActionLookup custom_actions token = None
      ∨ customActionLookup custom_actions token = Some "") →
     _create_event env self res_spec res_id request response
       (Some action_suffix) = Ok None).
Proof.
  intros Htok res_spec. split; [by apply get_custom_action_lookup|].
  intros Hm Hnone.
  apply _create_event_filtered
    with (action := customActionLookup custom_actions token).
  - rewrite _get_action_table.
    destruct Hm as [-> | ->]; by apply get_custom_action_lookup.
  - by destruct Hnone as [-> | ->].
Qed.

Example wildcard_substitution :
  customActionLookup {[ "*" := "compute:*" ]} "unlock" = Some "compute:unlock".
Proof. vm_compute. reflexivity. Qed.

Lemma custom_action_lookup_order_witness :
  _get_custom_action
    (NSpec "compute/servers" (Some "compute/servers/server") false
       {[ "*" := "compute:*" ]} ∅)
    "action"
    (example_request "POST" "/v2/p1/servers/abc/action"
       (Some (JObj [("unlock", JNull)])))
  = Ok (customActionLookup {[ "*" := "compute:*" ]} "unlock").
Proof.
  apply (custom_action_lookup_order example_env example_middleware
           "compute/servers" (Some "compute/servers/server") false
           {[ "*" := "compute:*" ]} ∅ (Some "abc") "action"
           (example_request "POST" "/v2/p1/servers/abc/action"
              (Some (JObj [("unlock", JNull)])))
           None "unlock").
  reflexivity.
Defined.

(** ** An empty table of custom actions *)

(** C10.  A resource configured with an empty [custom_actions] mapping is
    compiled to the same [ResourceSpec] as one configured without the key,
    and a raw action token then resolves to the default verb
    [update/<token>]; a token is filtered out only by a table that is not
    empty. *)
Theorem empty_custom_actions_default (service_type : string)
    (parentTypeURI : option string) (name : string) (singleton : option bool)
    (type_uri : option string)
    (children : option (option (list (string * option RawSpec))))
    (res_spec : Node) (action_suffix : string) (request : Request.t)
    (token : string) :
  compile_entry service_type parentTypeURI name
    (mkRawSpec singleton type_uri (Some ∅) children) = Ok res_spec →
  raw_action_token action_suffix request = Some token →
  compile_entry service_type parentTypeURI name
    (mkRawSpec singleton type_uri None children) = Ok res_spec
  ∧ _get_custom_action res_spec action_suffix request
    = Ok (Some ("update/" +:+ token))
  ∧ ∀ t e s (custom_actions : gmap string string) c,
      _get_custom_action (NSpec t e s custom_actions c) action_suffix request
      = Ok None → custom_actions ≠ ∅.
Proof.
  intros Hc Htok. split; [exact Hc|]. split.
  - simpl in Hc.
    destruct (match children with Some _ => _ | None => _ end) as [ch|];
      simplify_eq/=.
    unfold make_spec.
    rewrite (get_custom_action_lookup _ _ _ _ _ _ _ _ Htok). simpl.
    unfold customActionLookup. rewrite !lookup_empty. by case_decide.
  - intros t e s custom_actions c.
    rewrite (get_custom_action_lookup _ _ _ _ _ _ _ _ Htok).
    intros [= Hnone] ->. revert Hnone.
    unfold customActionLookup. rewrite !lookup_empty. by case_decide.
Qed.

Lemma empty_custom_actions_default_witness :
  _get_custom_action servers_spec "action"
    (example_request "POST" "/v2/p1/servers/abc/action"
       (Some (JObj [("reboot", JObj [])])))
  = Ok (Some "update/reboot").
Proof.
  apply (empty_custom_actions_default "compute" None "servers" None None None
           servers_spec "action"
           (example_request "POST" "/v2/p1/servers/abc/action"
              (Some (JObj [("reboot", JObj [])])))
           "reboot"); reflexivity.
Defined.

(** ** Outcome and reason *)

Lemma _create_event_outcome (env : Env) (self : Middleware) (res_spec : Node)
    (res_id : option string) (request : Request.t)
    (response : option Response.t) (action_suffix : option string)
    (event : Event.t) :
  _create_event env self res_spec res_id request response action_suffix
    = Ok (Some event) →
  Event.outcome event = action_result response
  ∧ Event.reason event = event_reason response.
Proof. unfold _create_event. intros H. by py_cases. Qed.

Lemma create_event_built (env : Env) (self : Middleware) (request : Request.t)
    (response : option Response.t) (Q : Event.t → Prop) :
  (∀ res_spec res_id action_suffix event,
     _create_event env self res_spec res_id request response action_suffix
       = Ok (Some event) → Q event) →
  (∀ event target, Q event → Q (Event.set_target event target)) →
  ∀ event, create_event env self request response = Ok (Some event) → Q event.
Proof.
  intros Hcreate Htarget event. unfold create_event.
  destruct (_strip_url_prefix self request); [|done].
  by apply _build_event_built.
Qed.

(** C8.  An event that [create_event] returns has the outcome [success]
    exactly when there is a response with a status from 200 to 399,
    [failure] exactly when there is a response with another status, and
    [unknown] exactly when there is no response; its reason is [HTTP] with
    the status code as a string when there is a response, and absent when
    there is none. *)
Theorem outcome_and_reason (env : Env) (self : Middleware)
    (request : Request.t) (response : option Response.t) (event : Event.t) :
  create_event env self request response = Ok (Some event) →
  (Event.outcome event = "success" ↔
     ∃ r, response = Some r ∧ 200 ≤ Response.status_int r < 400)
  ∧ (Event.outcome event = "failure" ↔
       ∃ r, response = Some r ∧ ¬ 200 ≤ Response.status_int r < 400)
  ∧ (Event.outcome event = "unknown" ↔ response = None)
  ∧ Event.reason event
    = (λ r, Reason.mk "HTTP" (str_of_int (Response.status_int r))) <$> response
  ∧ (is_Some (Event.reason event) ↔ is_Some response).
Proof.
  intros H.
  assert (Event.outcome event = action_result response
          ∧ Event.reason event = event_reason response) as [Ho Hr].
  { revert event H. apply create_event_built.
    - intros. by eapply _create_event_outcome.
    - by intros [] ?. }
  rewrite Ho, Hr. destruct response as [r|]; simpl.
  - destruct (Z.leb_spec 200 (Response.status_int r)),
             (Z.ltb_spec (Response.status_int r) 400); simpl;
      (repeat split; try done; try (intros (? & [= <-] & ?); lia);
       try (intros _; eexists; split; [done|lia]); try by eexists).
  - repeat split; try done; try (by intros (? & ? & ?));
      by intros [].
Qed.

Definition read_server_event : Event.t :=
  Event.mk "activity" "uuid-1" "t1" "success" "read"
    (ClientResource.mk "service/security/account/user" "unknown" "unknown"
       (Host.mk None None) (KeystoneCredential.mk "" "unknown") "p1")
    (Some (Reason.mk "HTTP" "200"))
    (Resource.mk (JStr "abc123") (Some "compute/servers/server") JNull [])
    "/v2/p1/servers/abc123".

Lemma outcome_and_reason_witness :
  Event.outcome read_server_event = "success" ↔
    ∃ r, Some (Response.mk 200 None) = Some r
         ∧ 200 ≤ Response.status_int r < 400.
Proof.
  apply (outcome_and_reason example_env example_middleware
           (example_request "GET" "/v2/p1/servers/abc123" None)
           (Some (Response.mk 200 None)) read_server_event).
  vm_compute. reflexivity.
Defined.

(** ** Determinism *)







(** ** The target of a [POST] *)

(** C6, as amended.  Where a [POST] at the end of the path returns an
    event, [_create_event] built one, and where the response has a JSON body
    that is a non-empty object, the event returned is that event with its
    target replaced by a resource built from the body: its id is the [id] of
    the body, or a generated one where the body has none, its type is the
    collection type URI of the resource, and its name is the [name] of the
    body or else its [displayName].  This is so whether or not the body has
    a name; whatever id the path bound is dropped.  Without a response, or
    with an empty JSON object as its body, the event is returned as
    [_create_event] built it. *)
Theorem post_target_override (env : Env) (self : Middleware) (res_node : Node)
    (res_id res_parent_id : option string) (request : Request.t)
    (response : option Response.t) (path : string) (event' : Event.t) :
  Request.method request = "POST" →
  _build_event env self res_node res_id res_parent_id request response path
    (-1) = Ok (Some event') →
  ∃ event,
    _create_event env self res_node (py_or res_id res_parent_id) request
      response None = Ok (Some event)
    ∧ match response with
      | Some r =>
          ∀ members, Response.json r = Some (JObj members) →
            match members with
            | [] => event' = event
            | _ :: _ =>
                ∃ type_uri, get_type_uri res_node = Ok type_uri
                  ∧ event'
                    = Event.set_target event
                        (Resource.mk
                           (resource_id (default JNull (assoc "id" members))
                              (target_uuid env))
                           (Some type_uri) (payload_name members) [])
            end
      | None => event' = event
      end.
Proof.
  intros Hm. rewrite _build_event_end. unfold end_of_path. rewrite Hm.
  destruct (_create_event env self res_node _ request response None)
    as [[event|]|e] eqn:Hev; simpl; [| |done].
  - intros H. exists event. split; [done|].
    destruct response as [r|]; [|by injection H].
    intros members Hj. rewrite Hj in H.
    destruct members as [|m members]; [by injection H|].
    change (json_truthy (JObj (m :: members))) with true in H. cbv iota in H.
    unfold json_get, payload_name in *. set (m' := m :: members) in *.
    destruct (get_type_uri res_node) as [type_uri|];
      [|by destruct (default JNull (assoc "name" m'))].
    exists type_uri. split; [done|].
    by destruct (default JNull (assoc "name" m')); injection H.
  - intros H. destruct response as [r|]; [|done].
    destruct (Response.json r) as [payload|]; [|done].
    destruct (json_truthy payload); [|done].
    destruct (json_get payload "name") as [name|]; simpl in H; [|done].
    destruct (match name with JNull => _ | _ => _ end); simpl in H; [|done].
    destruct (json_get payload "id"); simpl in H; [|done].
    by destruct (get_type_uri res_node).
Qed.

Definition create_server_event : Event.t :=
  Event.mk "activity" "uuid-1" "t1" "success" "create"
    (ClientResource.mk "service/security/account/user" "unknown" "unknown"
       (Host.mk None None) (KeystoneCredential.mk "" "unknown") "p1")
    (Some (Reason.mk "HTTP" "201"))
    (Resource.mk (JStr "abc") (Some "compute/servers/server") JNull [])
    "/v2/p1/servers/abc".

Lemma post_target_override_witness :
  ∃ event,
    _create_event example_env example_middleware servers_spec
      (py_or (Some "abc") None)
      (example_request "POST" "/v2/p1/servers/abc" None)
      (Some (Response.mk 201
               (Some (JObj [("id", JStr "x1"); ("name", JStr "foo")]))))
      None = Ok (Some event)
    ∧ ∀ members,
        Some (JObj [("id", JStr "x1"); ("name", JStr "foo")])
        = Some (JObj members) →
        match members with
        | [] =>
            Event.set_target create_server_event
              (Resource.mk (JStr "x1") (Some "compute/servers") (JStr "foo")
                 [])
            = event
        | _ :: _ =>
            ∃ type_uri, get_type_uri servers_spec = Ok type_uri
              ∧ Event.set_target create_server_event
                  (Resource.mk (JStr "x1") (Some "compute/servers")
                     (JStr "foo") [])
                = Event.set_target event
                    (Resource.mk
                       (resource_id (default JNull (assoc "id" members))
                          (target_uuid example_env))
                       (Some type_uri) (payload_name members) [])
        end.
Proof.
  apply (post_target_override example_env example_middleware servers_spec
           (Some "abc") None
           (example_request "POST" "/v2/p1/servers/abc" None)
           (Some (Response.mk 201
                    (Some (JObj [("id", JStr "x1"); ("name", JStr "foo")]))))
           "/servers/abc"
           (Event.set_target create_server_event
              (Resource.mk (JStr "x1") (Some "compute/servers") (JStr "foo")
                 []))
           eq_refl).
  vm_compute. reflexivity.
Defined.

(** C6, as stated, fails: a response body with neither [name] nor
    [displayName] replaces the target all the same. *)
Lemma post_override_without_name :
  assoc "name" [("id", JStr "x1")] = None
  ∧ assoc "displayName" [("id", JStr "x1")] = None
  ∧ ∃ event,
      create_event example_env example_middleware
        (example_request "POST" "/v2/p1/servers/abc" None)
        (Some (Response.mk 201 (Some (JObj [("id", JStr "x1")]))))
      = Ok (Some event)
      ∧ Event.target event
        = Resource.mk (JStr "x1") (Some "compute/servers") JNull []
      ∧ Event.target event
        ≠ Resource.mk (JStr "abc") (Some "compute/servers/server") JNull [].
Proof.
  repeat split. eexists. split; [vm_compute; reflexivity|]. by split.
Qed.

(** ** The compiler *)

Lemma segments_eq (name : string) :
  segments name =
  if 0 <=? find name "/" 0
  then slice name 0 (find name "/" 0)
       :: segments (slice_from name (find name "/" 0 + 1))
  else [name].
Proof.
  funelim (segments name).
  - by rewrite Hpos.
  - by rewrite e.
Qed.

Lemma RawSpec_nested_ind (P : RawSpec → Prop) :
  (∀ singleton type_uri custom_actions children,
     match children with
     | Some (Some l) =>
         Forall (λ x : string * option RawSpec, ∀ r, x.2 = Some r → P r) l
     | _ => True
     end →
     P (mkRawSpec singleton type_uri custom_actions children)) →
  ∀ r, P r.
Proof.
  intros H. fix IH 1. intros [singleton type_uri custom_actions children].
  apply H. destruct children as [[l|]|]; [|exact I..]. revert l.
  fix IHl 1. intros [|[name [r|]] l].
  - constructor.
  - constructor; [|apply IHl]. simpl. intros r' [= <-]. apply IH.
  - constructor; [|apply IHl]. simpl. intros r' [=].
Qed.

Lemma compile_item_eq (service_type : string) (parentTypeURI : option string)
    (name : string) (s : option RawSpec) :
  compile_item service_type parentTypeURI name s
  = children' ←
      match raw_children_key s with
      | None => Ok ∅
      | Some None => Raise AttributeError
      | Some (Some res_dict) =>
          _parse_resources service_type res_dict
            (Some (resolved_type_uri service_type parentTypeURI name
                     (raw_type_uri s)))
      end;
    Ok (make_spec service_type parentTypeURI name (raw_singleton s)
          (raw_type_uri s) (raw_custom_actions s) children').
Proof. destruct s as [[singleton type_uri custom_actions [[l|]|]]|]; done. Qed.

(** A [ResourceSpec] found in the dict that [_put_hier] leaves behind was in
    the dict before or is found in the object that was put. *)
Lemma _put_hier_within (hier_name : string) (object : Node) :
  ∀ dct dct' n,
    _put_hier dct hier_name object = Ok dct' →
    within (NDict dct') n → is_spec n →
    within object n ∨ within (NDict dct) n.
Proof.
  remember (String.length hier_name) as len eqn:Hlen. revert hier_name Hlen.
  induction len as [len IH] using lt_wf_ind.
  intros hier_name -> dct dct' n. rewrite _put_hier_eq. cbv zeta.
  destruct (Z.leb_spec 0 (find hier_name "/" 0)) as [Hpos|Hpos].
  - set (segment := slice hier_name 0 _). set (rest := slice_from _ _).
    destruct (default (NDict ∅) (dct !! segment)) as [sub|] eqn:Hsub; [|done].
    destruct (_put_hier sub rest object) as [sub'|] eqn:Hput; simpl; [|done].
    intros [= <-] Hw Hn. inversion Hw as [|? key m ? Hk Hm|]; subst.
    { done. }
    destruct (decide (segment = key)) as [<-|Hne].
    + rewrite lookup_insert_eq in Hk. injection Hk as <-.
      eapply (IH (String.length rest)) in Hm; [| |reflexivity|exact Hput|done].
      * destruct Hm as [?|Hm]; [by left|right].
        destruct (dct !! segment) as [old|] eqn:Hold; simpl in Hsub; subst.
        -- by eapply within_item.
        -- injection Hsub as <-.
           inversion Hm as [|? ? ? ? Hk' _|]; subst; [done|].
           by rewrite lookup_empty in Hk'.
      * apply slice_from_shorter; [done|].
        intros ->. by rewrite find_empty in Hpos.
    + rewrite lookup_insert_ne in Hk by done. right. by eapply within_item.
  - intros [= <-] Hw Hn. inversion Hw as [|? key m ? Hk Hm|]; subst.
    { done. }
    destruct (decide (hier_name = key)) as [<-|Hne].
    + rewrite lookup_insert_eq in Hk. injection Hk as <-. by left.
    + rewrite lookup_insert_ne in Hk by done. right. by eapply within_item.
Qed.

Lemma entry_of_below (service_type : string) (p : option string)
    (res_dict : list (string * option RawSpec)) (name : string)
    (s : option RawSpec) (children : list (string * option RawSpec))
    (n : Node) :
  (name, s) ∈ res_dict → raw_children s = Some children →
  originates service_type
    (Some (resolved_type_uri service_type p name (raw_type_uri s)))
    children n →
  originates service_type p res_dict n.
Proof.
  intros Hin Hch (parent & name' & s' & He & Hs).
  exists parent, name', s'. split; [|done]. by eapply entry_below.
Qed.

(** What [compile_item] returns for an entry: the [ResourceSpec] of that
    entry, over the specs of the entries of its children. *)
Definition item_compiled (s : option RawSpec) : Prop :=
  ∀ service_type p name node n,
    compile_item service_type p name s = Ok node →
    within node n → is_spec n →
    spec_of_entry service_type p name s n
    ∨ ∃ children, raw_children s = Some children
        ∧ originates service_type
            (Some (resolved_type_uri service_type p name (raw_type_uri s)))
            children n.

Lemma loop_resources_within (service_type : string) (p : option string)
    (full : list (string * option RawSpec)) :
  ∀ todo acc grammar,
    todo ⊆ full →
    Forall (λ x, item_compiled x.2) todo →
    (∀ n, within (NDict acc) n → is_spec n →
          originates service_type p full n) →
    loop_resources (compile_item service_type p) todo acc = Ok grammar →
    ∀ n, within (NDict grammar) n → is_spec n →
         originates service_type p full n.
Proof.
  induction todo as [|[name s] todo IH]; intros acc grammar Hsub Hall Hacc.
  { by intros [= <-]. }
  simpl. destruct (compile_item service_type p name s) as [spec|] eqn:Hc;
    simpl; [|done].
  destruct (_put_hier acc name spec) as [acc'|] eqn:Hput; simpl; [|done].
  apply Forall_cons in Hall as [Hs Hall].
  apply IH; [set_solver|done|].
  intros n Hw Hn.
  destruct (_put_hier_within _ _ _ _ _ Hput Hw Hn) as [Hin|Hin]; [|by apply Hacc].
  assert ((name, s) ∈ full) as Hfull by set_solver.
  destruct (Hs _ _ _ _ _ Hc Hin Hn) as [Hok|(children & Hch & Ho)].
  - exists p, name, s. split; [by apply entry_top|done].
  - by eapply entry_of_below.
Qed.

Lemma make_spec_of_entry (service_type : string) (p : option string)
    (name : string) (s : option RawSpec) (children : gmap string Node) :
  spec_of_entry service_type p name s
    (make_spec service_type p name (raw_singleton s) (raw_type_uri s)
       (raw_custom_actions s) children).
Proof.
  unfold make_spec, spec_of_entry, resolved_type_uri. simpl.
  by destruct (default false (raw_singleton s)).
Qed.

Lemma within_empty (n : Node) : within (NDict ∅) n → ¬ is_spec n.
Proof.
  inversion 1 as [|? ? ? ? Hk|]; subst; [by intros []|].
  by rewrite lookup_empty in Hk.
Qed.

Lemma all_items_compiled (s : option RawSpec) : item_compiled s.
Proof.
  destruct s as [r|].
  - induction r as [singleton type_uri custom_actions children IH]
      using RawSpec_nested_ind.
    intros service_type p name node n.
    rewrite compile_item_eq.
    set (s := Some (mkRawSpec singleton type_uri custom_actions children)).
    destruct (match raw_children_key s with Some _ => _ | None => _ end)
      as [children'|] eqn:Hch; simpl; [|done].
    intros [= <-] Hw Hn. unfold make_spec in Hw.
    inversion Hw as [|?|? ? ? ? ? key m ? Hk Hm]; subst.
    + left. apply make_spec_of_entry.
    + right. simpl in Hch. destruct children as [[l|]|]; [|done|].
      * exists l. split; [done|].
        eapply (loop_resources_within _ _ l l ∅); [done| | |exact Hch| |done].
        -- simpl in IH. eapply Forall_impl; [exact IH|].
           intros [name' [r'|]] Hr'; simpl in *.
           ++ by apply Hr'.
           ++ intros st p' nm node' n'. rewrite compile_item_eq. simpl.
              intros [= <-] Hw' Hn'. unfold make_spec in Hw'.
              inversion Hw' as [|?|? ? ? ? ? ? ? ? Hk' _]; subst.
              ** left. apply (make_spec_of_entry st p' nm None ∅).
              ** by rewrite lookup_empty in Hk'.
        -- intros n' Hw' Hn'. by apply within_empty in Hw'.
        -- by eapply within_item.
      * injection Hch as <-. by rewrite lookup_empty in Hk.
  - intros service_type p name node n. rewrite compile_item_eq. simpl.
    intros [= <-] Hw Hn. unfold make_spec in Hw.
    inversion Hw as [|?|? ? ? ? ? ? ? ? Hk _]; subst.
    + left. apply (make_spec_of_entry service_type p name None ∅).
    + by rewrite lookup_empty in Hk.
Qed.

(** C7, as amended.  Every [ResourceSpec] of a compiled grammar is the spec
    of an entry of the raw configuration: its [singleton] is the configured
    flag or [False]; its [type_uri] is the configured one or else the
    prefix, [/] and the name, where the prefix is the resolved [type_uri] of
    the parent when that is not empty, and the service type at the root and
    under a parent whose [type_uri] is empty; its [el_type_uri] is absent
    when it is a singleton and else its [type_uri], [/] and the name
    without its last character.  So [el_type_uri] is present exactly when
    [singleton] is false. *)
Theorem compiled_spec_fields (service_type : string)
    (res_dict : list (string * option RawSpec)) (grammar : gmap string Node)
    (type_uri : string) (el_type_uri : option string) (singleton : bool)
    (custom_actions : gmap string string) (children : gmap string Node) :
  _parse_resources service_type res_dict None = Ok grammar →
  within (NDict grammar)
    (NSpec type_uri el_type_uri singleton custom_actions children) →
  (is_Some el_type_uri ↔ singleton = false)
  ∧ ∃ parent name s,
      entry_of service_type None res_dict parent name s
      ∧ singleton = default false (raw_singleton s)
      ∧ type_uri
        = default ((if truthy parent then default "" parent else service_type)
                   +:+ "/" +:+ name) (raw_type_uri s)
      ∧ el_type_uri
        = (if singleton then None
           else Some (type_uri +:+ "/" +:+ slice name 0 (-1))).
Proof.
  intros Hc Hw.
  destruct (loop_resources_within service_type None res_dict res_dict ∅ grammar)
    with (n := NSpec type_uri el_type_uri singleton custom_actions children)
    as (parent & name & s & He & Hsg & Ht & Hel); try done.
  - apply Forall_forall. intros. apply all_items_compiled.
  - intros n Hw' Hn'. by apply within_empty in Hw'.
  - split; [|by exists parent, name, s].
    rewrite Hel. destruct singleton; split; try done; by intros [].
Qed.

Lemma compiled_spec_fields_witness :
  (is_Some (Some "compute/servers/server") ↔ false = false)
  ∧ ∃ parent name s,
      entry_of "compute" None [("servers", None)] parent name s
      ∧ false = default false (raw_singleton s)
      ∧ "compute/servers"
        = default ((if truthy parent then default "" parent else "compute")
                   +:+ "/" +:+ name) (raw_type_uri s)
      ∧ Some "compute/servers/server"
        = (if false then None
           else Some ("compute/servers" +:+ "/" +:+ slice name 0 (-1))).
Proof.
  apply (compiled_spec_fields "compute" [("servers", None)]
           {[ "servers" := servers_spec ]} "compute/servers"
           (Some "compute/servers/server") false ∅ ∅).
  - vm_compute. reflexivity.
  - apply (within_item _ "servers" servers_spec); [reflexivity|].
    apply within_here.
Defined.

(** C7, as stated, fails where a parent is configured with the empty string
    as its [type_uri]: the [type_uri] of its child defaults to the service
    type, [/] and the name, not to the [type_uri] of the parent, [/] and the
    name. *)
Lemma type_uri_under_empty_parent :
  ∃ grammar children,
    _parse_resources "compute" empty_parent_raw None = Ok grammar
    ∧ grammar !! "a" = Some (NSpec "" (Some "/") false ∅ children)
    ∧ children !! "b" = Some (NSpec "compute/b" (Some "compute/b/") false ∅ ∅)
    ∧ "compute/b" ≠ "" +:+ "/" +:+ "b".
Proof.
  eexists _, _. split; [vm_compute; reflexivity|].
  split; [vm_compute; reflexivity|]. split; [vm_compute; reflexivity|done].
Qed.

(** The name without its last character. *)
Lemma substring_init (s : string) (c : ascii) :
  substring 0 (String.length s) (s +:+ String c "") = s.
Proof. induction s as [|a s IH]; simpl; [done|]. by rewrite IH. Qed.

Lemma slice_init (s : string) (c : ascii) :
  slice (s +:+ String c "") 0 (-1) = s.
Proof.
  unfold slice, clamp, str_len.
  assert (String.length (s +:+ String c "") = S (String.length s)) as ->.
  { induction s as [|a s IH]; simpl; [done|]. by rewrite IH. }
  change (-1 <? 0) with true. change (0 <? 0) with false. cbv iota.
  replace (Z.to_nat (Z.min 0 _)) with 0%nat by lia.
  replace (Z.to_nat (_ - _)) with (String.length s) by lia.
  apply substring_init.
Qed.

(** ** Hierarchical names *)

Example segments_abc : segments "a/b/c" = ["a"; "b"; "c"].
Proof. vm_compute. reflexivity. Qed.

(** [_put_hier] leaves the object under the segments of its name. *)
Lemma _put_hier_descend (hier_name : string) (object : Node) :
  ∀ dct dct',
    _put_hier dct hier_name object = Ok dct' →
    descend (NDict dct') (segments hier_name) = Some object.
Proof.
  remember (String.length hier_name) as len eqn:Hlen. revert hier_name Hlen.
  induction len as [len IH] using lt_wf_ind.
  intros hier_name -> dct dct'. rewrite _put_hier_eq, segments_eq. cbv zeta.
  destruct (Z.leb_spec 0 (find hier_name "/" 0)) as [Hpos|Hpos].
  - set (segment := slice hier_name 0 _). set (rest := slice_from _ _).
    destruct (default (NDict ∅) (dct !! segment)) as [sub|]; [|done].
    destruct (_put_hier sub rest object) as [sub'|] eqn:Hput; simpl; [|done].
    intros [= <-]. rewrite lookup_insert_eq. simpl.
    eapply (IH (String.length rest)); [|reflexivity|exact Hput].
    apply slice_from_shorter; [done|].
    intros ->. by rewrite find_empty in Hpos.
  - intros [= <-]. simpl. by rewrite lookup_insert_eq.
Qed.

(** [_put_hier] leaves a [ResourceSpec] where it is, unless the segments of
    its name lead to that spec or to a dict above it. *)
Lemma _put_hier_descend_other (hier_name : string) (object : Node) :
  ∀ dct dct' keys n,
    _put_hier dct hier_name object = Ok dct' →
    descend (NDict dct) keys = Some n → is_spec n →
    ¬ segments hier_name `prefix_of` keys →
    descend (NDict dct') keys = Some n.
Proof.
  remember (String.length hier_name) as len eqn:Hlen. revert hier_name Hlen.
  induction len as [len IH] using lt_wf_ind.
  intros hier_name -> dct dct' keys n.
  rewrite _put_hier_eq, segments_eq. cbv zeta.
  destruct keys as [|key keys]; [by intros _ [= <-] []|]. simpl.
  destruct (dct !! key) as [m|] eqn:Hm; simpl; [|done].
  destruct (Z.leb_spec 0 (find hier_name "/" 0)) as [Hpos|Hpos].
  - set (segment := slice hier_name 0 _). set (rest := slice_from _ _).
    destruct (default (NDict ∅) (dct !! segment)) as [sub|] eqn:Hsub; [|done].
    destruct (_put_hier sub rest object) as [sub'|] eqn:Hput; simpl; [|done].
    intros [= <-] Hd Hn Hpre.
    destruct (decide (segment = key)) as [Heq|Hne].
    + rewrite Heq in Hsub |- *. rewrite Hm in Hsub. simpl in Hsub. subst m.
      rewrite lookup_insert_eq. simpl.
      eapply (IH (String.length rest));
        [|reflexivity|exact Hput|exact Hd|exact Hn|].
      * apply slice_from_shorter; [done|].
        intros ->. by rewrite find_empty in Hpos.
      * intros Hp. apply Hpre. rewrite Heq. by apply prefix_cons.
    + rewrite lookup_insert_ne by done. by rewrite Hm.
  - intros [= <-] Hd Hn Hpre.
    destruct (decide (hier_name = key)) as [<-|Hne].
    + destruct Hpre. apply prefix_cons, prefix_nil.
    + rewrite lookup_insert_ne by done. by rewrite Hm.
Qed.

Lemma loop_resources_app (compile : string → option RawSpec → py Node)
    (l1 l2 : list (string * option RawSpec)) (acc : gmap string Node) :
  loop_resources compile (l1 ++ l2) acc
  = acc' ← loop_resources compile l1 acc; loop_resources compile l2 acc'.
Proof.
  revert acc. induction l1 as [|[name s] l1 IH]; intros acc; simpl; [done|].
  destruct (compile name s) as [spec|]; simpl; [|done].
  destruct (_put_hier acc name spec) as [acc'|]; simpl; [|done]. apply IH.
Qed.

Lemma loop_resources_descend (compile : string → option RawSpec → py Node)
    (keys : list string) (n : Node) :
  ∀ todo acc grammar,
    loop_resources compile todo acc = Ok grammar →
    descend (NDict acc) keys = Some n → is_spec n →
    (∀ name s, (name, s) ∈ todo → ¬ segments name `prefix_of` keys) →
    descend (NDict grammar) keys = Some n.
Proof.
  induction todo as [|[name s] todo IH]; intros acc grammar; simpl.
  { by intros [= <-]. }
  destruct (compile name s) as [spec|]; simpl; [|done].
  destruct (_put_hier acc name spec) as [acc'|] eqn:Hput; simpl; [|done].
  intros Hloop Hd Hn Hpre. eapply IH; [exact Hloop| |done|].
  - eapply _put_hier_descend_other; [exact Hput|done..|].
    apply (Hpre name s). set_solver.
  - intros name' s' Hin. apply (Hpre name' s'). set_solver.
Qed.

(** C4, as amended.  Where a raw configuration with an entry under a
    hierarchical key such as [a/b/c] compiles, and no later entry's key
    leads to the same place or to a place above it, the grammar has under
    [root["a"]["b"]["c"]], below plain dicts, the [ResourceSpec] of that
    entry: it is resolved with the whole key as its name, and its children
    are the grammar compiled from the children of the entry under the type
    URI of the entry. *)
Theorem hierarchical_key_placement (service_type : string)
    (parentTypeURI : option string)
    (before after : list (string * option RawSpec)) (name : string)
    (s : option RawSpec) (grammar : gmap string Node) :
  _parse_resources service_type (before ++ (name, s) :: after) parentTypeURI
    = Ok grammar →
  (∀ name' s', (name', s') ∈ after →
     ¬ segments name' `prefix_of` segments name) →
  ∃ children,
    _parse_resources service_type (default [] (raw_children s))
      (Some (resolved_type_uri service_type parentTypeURI name
               (raw_type_uri s)))
    = Ok children
    ∧ descend (NDict grammar) (segments name)
      = Some (make_spec service_type parentTypeURI name (raw_singleton s)
                (raw_type_uri s) (raw_custom_actions s) children).
Proof.
  unfold _parse_resources at 1. rewrite loop_resources_app. simpl.
  destruct (loop_resources _ before ∅) as [acc|]; simpl; [|done].
  rewrite compile_item_eq. unfold raw_children.
  destruct (raw_children_key s) as [[res_dict|]|]; simpl; [| done |].
  - destruct (_parse_resources service_type res_dict _) as [children|];
      simpl; [|done].
    destruct (_put_hier acc name _) as [acc'|] eqn:Hput; simpl; [|done].
    intros Hloop Hafter. exists children. split; [done|].
    eapply loop_resources_descend; [exact Hloop| |done|exact Hafter].
    by eapply _put_hier_descend.
  - destruct (_put_hier acc name _) as [acc'|] eqn:Hput; simpl; [|done].
    intros Hloop Hafter. exists ∅. split; [done|].
    eapply loop_resources_descend; [exact Hloop| |done|exact Hafter].
    by eapply _put_hier_descend.
Qed.

Lemma hierarchical_key_placement_witness :
  ∃ children,
    _parse_resources "compute" (default [] (raw_children placed_entry))
      (Some (resolved_type_uri "compute" None "a/b"
               (raw_type_uri placed_entry)))
    = Ok children
    ∧ descend (NDict placed_grammar) (segments "a/b")
      = Some (make_spec "compute" None "a/b" (raw_singleton placed_entry)
                (raw_type_uri placed_entry) (raw_custom_actions placed_entry)
                children).
Proof.
  apply (hierarchical_key_placement "compute" None [] [] "a/b" placed_entry
           placed_grammar).
  - vm_compute. reflexivity.
  - intros name' s' Hin. by apply elem_of_nil in Hin.
Defined.

(** C4, as stated, fails: the grammar of the key [a/b/c] has a plain dict
    under [a], and the grammar of a configuration nested by hand has a
    [ResourceSpec] there, whether the nesting is written through [children]
    or as mappings directly under [a]. *)
Lemma hierarchical_is_not_nested :
  _parse_resources "compute" hierarchical_raw None
  ≠ _parse_resources "compute" nested_raw None
  ∧ _parse_resources "compute" hierarchical_raw None
    ≠ _parse_resources "compute" literal_raw None.
Proof.
  pose (under_a := λ r : py (gmap string Node),
          match r with
          | Ok g => match g !! "a" with
                    | Some (NDict _) => true
                    | _ => false
                    end
          | Raise _ => false
          end).
  split; intros H; apply (f_equal under_a) in H; by vm_compute in H.
Qed.

(** ** The target of an event *)

(** With an id bound, the target has that id and the collection type URI if
    the action is [list] or the resource is a singleton, and the element
    type URI otherwise. *)
Lemma target_with_bound_id (env : Env) (self : Middleware) (type_uri : string)
    (el_type_uri : option string) (singleton : bool)
    (custom_actions : gmap string string) (children : gmap string Node)
    (res_id : string) (request : Request.t) (response : option Response.t)
    (action_suffix : option string) (event : Event.t) :
  res_id ≠ "" →
  _create_event env self
    (NSpec type_uri el_type_uri singleton custom_actions children)
    (Some res_id) request response action_suffix = Ok (Some event) →
  Event.target event
  = Resource.mk (JStr res_id)
      (if String.eqb (Event.action event) "list" || singleton
       then Some type_uri else el_type_uri)
      JNull [].
Proof.
  intros Hid. apply String.eqb_neq in Hid. unfold _create_event.
  intros H. py_cases; try done.
  all: change taxonomy.ACTION_LIST with "list" in *.
  all: repeat match goal with
              | H : context [String.eqb (default "" ?a) "list"] |- _ =>
                  destruct (String.eqb (default "" a) "list")
              | b : bool |- _ => destruct b
              end; by simplify_eq/=.
Qed.

(** Called with its arguments in the order of its parameters,
    [_build_target_service_resource] builds the service resource. *)
Lemma service_target_in_declared_order (self : Middleware) (type_uri : string)
    (el_type_uri : option string) (singleton : bool)
    (custom_actions : gmap string string) (children : gmap string Node)
    (request : Request.t) :
  _build_target_service_resource self
    (ObjNode (NSpec type_uri el_type_uri singleton custom_actions children))
    (ObjRequest request)
  = Ok (Resource.mk (JStr (_service_name self))
          (Some ("service/" +:+ type_uri)) JNull
          [Request.path_url request]).
Proof. reflexivity. Qed.

(** [_create_event] calls it with the request first, and so raises whenever
    no id is bound and there is an action. *)
Lemma _create_event_without_id (env : Env) (self : Middleware)
    (res_spec : Node) (res_id : option string) (request : Request.t)
    (response : option Response.t) (action_suffix action : option string) :
  truthy res_id = false →
  _get_action res_spec res_id request action_suffix = Ok action →
  truthy action = true →
  _create_event env self res_spec res_id request response action_suffix
  = Raise AttributeError.
Proof.
  intros Hid Ha Ht. unfold _create_event. rewrite Ha. simpl.
  by rewrite Ht, Hid.
Qed.

(** C5 fails on the code for a request that binds no id: [GET] on the
    collection [/v2/p1/servers] of the grammar [{servers: {}}] derives the
    action [list], and the construction of the service resource raises
    [AttributeError] instead of giving the event a target, because
    [_create_event] passes the request where the spec is expected. *)
Theorem collection_request_raises :
  _get_action servers_spec None
    (example_request "GET" "/v2/p1/servers" None) None = Ok (Some "list")
  ∧ create_event example_env example_middleware
      (example_request "GET" "/v2/p1/servers" None)
      (Some (Response.mk 200 None))
    = Raise AttributeError.
Proof. split; vm_compute; reflexivity. Qed.

(** ** Requests that cannot be mapped *)

Lemma create_event_without_prefix (env : Env) (self : Middleware)
    (request : Request.t) (response : option Response.t) :
  _strip_url_prefix self request = None →
  create_event env self request response = Raise AttributeError.
Proof. intros H. unfold create_event. by rewrite H. Qed.

(** A segment that is not a name of the dict gives no event. *)
Lemma unknown_name_no_event (env : Env) (self : Middleware)
    (items : gmap string Node) (res_id res_parent_id : option string)
    (request : Request.t) (response : option Response.t) (path : string)
    (cursor : Z) :
  cursor ≠ -1 →
  items !! (if negb (find path "/" (cursor + 1) =? -1)
            then slice path (cursor + 1) (find path "/" (cursor + 1))
            else slice_from path (cursor + 1)) = None →
  _build_event env self (NDict items) res_id res_parent_id request response
    path cursor = Ok None.
Proof. intros Hc Hm. rewrite _build_event_eq by done. cbv zeta. by rewrite Hm. Qed.

(** A segment that is not the last one and is not a child gives no event. *)
Lemma unexpected_segment_no_event (env : Env) (self : Middleware)
    (type_uri : string) (el_type_uri : option string) (singleton : bool)
    (custom_actions : gmap string string) (children : gmap string Node)
    (res_id res_parent_id : option string)
    (request : Request.t) (response : option Response.t) (path : string)
    (cursor : Z) :
  cursor ≠ -1 →
  truthy res_id || singleton = true →
  find path "/" (cursor + 1) ≠ -1 →
  children !! slice path (cursor + 1) (find path "/" (cursor + 1)) = None →
  _build_event env self
    (NSpec type_uri el_type_uri singleton custom_actions children)
    res_id res_parent_id request response path cursor = Ok None.
Proof.
  intros Hc Hid Hn Hm. rewrite _build_event_eq by done. cbv zeta.
  apply Z.eqb_neq in Hn. rewrite Hid, Hn. simpl. by rewrite Hm.
Qed.

(** C3 fails on the code for a path without the URL prefix:
    [_strip_url_prefix] returns [None], as its docstring says, and
    [create_event] calls [endswith] on it, which raises [AttributeError]
    instead of giving no event. *)
Theorem foreign_path_raises :
  _strip_url_prefix example_middleware
    (example_request "GET" "/healthcheck" None) = None
  ∧ create_event example_env example_middleware
      (example_request "GET" "/healthcheck" None) None
    = Raise AttributeError.
Proof. split; vm_compute; reflexivity. Qed.

(** * Further properties *)

(** ** Strings *)

Lemma substring_empty (n m : nat) : substring n m "" = "".
Proof. by destruct n, m. Qed.

Lemma substring_nothing (n : nat) (s : string) : substring n 0 s = "".
Proof. revert n. induction s as [|a s IH]; intros [|n]; simpl; done. Qed.

Lemma substring_whole (s : string) : substring 0 (String.length s) s = s.
Proof. induction s as [|a s IH]; simpl; [done|]. by rewrite IH. Qed.

Lemma slice_from_nat (s : string) (k : nat) :
  slice_from s (Z.of_nat k) = substring k (String.length s - k) s.
Proof.
  unfold slice_from, slice, clamp, str_len.
  destruct (Z.ltb_spec (Z.of_nat k) 0) as [?|_]; [lia|].
  destruct (Z.ltb_spec (Z.of_nat (String.length s)) 0) as [?|_]; [lia|].
  destruct (decide (k ≤ String.length s)%nat) as [Hk|Hk].
  - replace (Z.to_nat (Z.min (Z.of_nat k) _)) with k by lia.
    by replace (Z.to_nat (_ - _)) with (String.length s - k)%nat by lia.
  - replace (String.length s - k)%nat with 0%nat by lia.
    replace (Z.to_nat (Z.min (Z.of_nat k) _)) with (String.length s) by lia.
    replace (Z.to_nat (_ - _)) with 0%nat by lia.
    by rewrite !substring_nothing.
Qed.

Lemma slice_from_0 (s : string) : slice_from s 0 = s.
Proof.
  pose proof (slice_from_nat s 0) as H.
  rewrite Nat.sub_0_r, substring_whole in H. exact H.
Qed.

Lemma slice_from_cons (a : ascii) (s : string) (k : nat) :
  slice_from (String a s) (Z.of_nat (S k)) = slice_from s (Z.of_nat k).
Proof. by rewrite !slice_from_nat. Qed.

Lemma slice_from_empty (lo : Z) : slice_from "" lo = "".
Proof. unfold slice_from, slice. apply substring_empty. Qed.

Lemma find_cons_S (a : ascii) (s : string) (c : ascii) (k : nat) :
  find (String a s) c (Z.of_nat (S k))
  = let f := find s c (Z.of_nat k) in if f <? 0 then -1 else f + 1.
Proof.
  unfold find, clamp, str_len. cbv zeta.
  destruct (Z.ltb_spec (Z.of_nat (S k)) 0) as [?|_]; [lia|].
  destruct (Z.ltb_spec (Z.of_nat k) 0) as [?|_]; [lia|].
  replace (Z.to_nat (Z.min (Z.of_nat (S k)) (Z.of_nat (String.length (String a s)))))
    with (S (Z.to_nat (Z.min (Z.of_nat k) (Z.of_nat (String.length s)))))
    by (simpl String.length; lia).
  simpl. destruct (find_nat c s _) as [i|]; simpl; [|done].
  destruct (Z.ltb_spec (Z.of_nat i) 0); lia.
Qed.

Lemma find_0_cons (a : ascii) (s : string) (c : ascii) :
  find (String a s) c 0
  = if Ascii.eqb a c then 0
    else let f := find s c 0 in if f <? 0 then -1 else f + 1.
Proof.
  unfold find, clamp, str_len. simpl.
  replace (Z.to_nat (Z.min 0 (Z.pos (Pos.of_succ_nat (String.length s)))))
    with 0%nat by lia.
  replace (Z.to_nat (Z.min 0 (Z.of_nat (String.length s)))) with 0%nat by lia.
  destruct (Ascii.eqb a c); [done|].
  destruct (find_nat c s 0) as [i|]; simpl; [|done].
  destruct (Z.ltb_spec (Z.of_nat i) 0); lia.
Qed.

Lemma find_range (s : string) (c : ascii) (start : Z) :
  find s c start = -1 ∨ 0 ≤ find s c start < str_len s.
Proof.
  unfold find. destruct (find_nat _ _ _) as [i|] eqn:E; [right|by left].
  apply find_nat_bound in E. unfold str_len. lia.
Qed.

(** Looking for a character from [k] on is looking for it in the rest of
    the string from [k] on. *)
Lemma find_in_rest (s : string) (c : ascii) (k : nat) :
  find s c (Z.of_nat k)
  = let f := find (slice_from s (Z.of_nat k)) c 0 in
    if f <? 0 then -1 else Z.of_nat k + f.
Proof.
  revert s. induction k as [|k IH]; intros s.
  - rewrite slice_from_0. cbv zeta. change (Z.of_nat 0) with 0.
    destruct (find_range s c 0) as [->|?]; [done|].
    destruct (Z.ltb_spec (find s c 0) 0); lia.
  - destruct s as [|a s]; [by rewrite slice_from_empty|].
    rewrite find_cons_S, slice_from_cons, IH. cbv zeta.
    destruct (find_range (slice_from s (Z.of_nat k)) c 0) as [->|?]; [done|].
    destruct (Z.ltb_spec (find (slice_from s (Z.of_nat k)) c 0) 0); [lia|].
    destruct (Z.ltb_spec (Z.of_nat k + find (slice_from s (Z.of_nat k)) c 0) 0);
      lia.
Qed.

Lemma slice_cons_S (a : ascii) (s : string) (lo hi : nat) :
  slice (String a s) (Z.of_nat (S lo)) (Z.of_nat (S hi))
  = slice s (Z.of_nat lo) (Z.of_nat hi).
Proof.
  unfold slice, clamp, str_len.
  repeat match goal with
         | |- context [Z.ltb ?x 0] => destruct (Z.ltb_spec x 0); [lia|]
         end.
  simpl String.length.
  replace (Z.to_nat (Z.min (Z.of_nat (S lo)) (Z.of_nat (S (String.length s)))))
    with (S (Z.to_nat (Z.min (Z.of_nat lo) (Z.of_nat (String.length s)))))
    by lia.
  simpl. f_equal. lia.
Qed.

(** A slice of the string and the rest after it, taken in the rest of the
    string from [k] on. *)
Lemma slice_in_rest (s : string) (k j : nat) :
  slice s (Z.of_nat k) (Z.of_nat (k + j))
  = slice (slice_from s (Z.of_nat k)) 0 (Z.of_nat j).
Proof.
  revert s. induction k as [|k IH]; intros s.
  - by rewrite slice_from_0.
  - destruct s as [|a s].
    + rewrite slice_from_empty. unfold slice. by rewrite !substring_empty.
    + rewrite slice_from_cons. change (S k + j)%nat with (S (k + j)).
      rewrite slice_cons_S. apply IH.
Qed.

Lemma slice_from_in_rest (s : string) (k j : nat) :
  slice_from s (Z.of_nat (k + j))
  = slice_from (slice_from s (Z.of_nat k)) (Z.of_nat j).
Proof.
  revert s. induction k as [|k IH]; intros s.
  - by rewrite slice_from_0.
  - destruct s as [|a s]; [by rewrite !slice_from_empty|].
    change (S k + j)%nat with (S (k + j)). rewrite !slice_from_cons. apply IH.
Qed.

(** ** The descent reads the segments of the path *)

Lemma segments_nonempty (name : string) : segments name ≠ [].
Proof. rewrite segments_eq. by destruct (0 <=? find name "/" 0). Qed.

(** The segment that [_build_event] reads at [cursor] and the place where it
    goes on, in terms of the segments of the rest of the path. *)
Lemma segments_at_cursor (path : string) (cursor : Z) :
  0 ≤ cursor →
  let next_pos := find path "/" (cursor + 1) in
  segments (slice_from path (cursor + 1))
  = if next_pos =? -1 then [slice_from path (cursor + 1)]
    else slice path (cursor + 1) next_pos
         :: segments (slice_from path (next_pos + 1)).
Proof.
  intros Hc. cbv zeta.
  replace (cursor + 1) with (Z.of_nat (Z.to_nat (cursor + 1))) by lia.
  set (k := Z.to_nat (cursor + 1)).
  rewrite (segments_eq (slice_from path (Z.of_nat k))), find_in_rest.
  cbv zeta. set (f := find (slice_from path (Z.of_nat k)) "/" 0).
  destruct (find_range (slice_from path (Z.of_nat k)) "/" 0) as [Hf|Hf];
    fold f in Hf.
  - by rewrite Hf.
  - destruct (Z.leb_spec 0 f) as [_|?]; [|lia].
    destruct (Z.ltb_spec f 0) as [?|_]; [lia|].
    destruct (Z.eqb_spec (Z.of_nat k + f) (-1)) as [?|_]; [lia|].
    replace f with (Z.of_nat (Z.to_nat f)) by lia.
    rewrite <- Nat2Z.inj_add, slice_in_rest. f_equal. f_equal.
    replace (Z.of_nat (k + Z.to_nat f) + 1)
      with (Z.of_nat (k + (Z.to_nat f + 1))) by lia.
    rewrite slice_from_in_rest. f_equal. lia.
Qed.

Lemma _build_event_walk (env : Env) (self : Middleware) (request : Request.t)
    (response : option Response.t) (path : string) (cursor : Z)
    (res_node : Node) (res_id res_parent_id : option string) :
  0 ≤ cursor →
  _build_event env self res_node res_id res_parent_id request response path
    cursor
  = walk env self res_node res_id res_parent_id request response
      (segments (slice_from path (cursor + 1))).
Proof.
  remember (distance path cursor) as d eqn:Hd.
  revert cursor Hd res_node res_id res_parent_id.
  induction d as [d IH] using lt_wf_ind.
  intros cursor -> res_node res_id res_parent_id Hc.
  rewrite _build_event_eq by lia. rewrite segments_at_cursor by done.
  cbv zeta. set (next_pos := find path "/" (cursor + 1)).
  assert (IH' : next_pos ≠ -1 → ∀ n i p,
    _build_event env self n i p request response path next_pos
    = walk env self n i p request response
        (segments (slice_from path (next_pos + 1)))).
  { intros Hn n i p. eapply IH; [|reflexivity|].
    - apply find_advances. apply Z.eqb_neq. lia.
    - destruct (find_range path "/" (cursor + 1)); subst next_pos; lia. }
  destruct (Z.eqb_spec next_pos (-1)) as [Hn|Hn]; simpl.
  - rewrite Hn. destruct res_node as [items|t e sg ca ch].
    + destruct (items !! _); [apply _build_event_end|done].
    + destruct (truthy res_id || sg); [|apply _build_event_end].
      destruct (ch !! _) as [child|]; [|done].
      destruct (node_truthy child); [apply _build_event_end|done].
  - specialize (IH' Hn).
    destruct (segments (slice_from path (next_pos + 1))) as [|tok toks] eqn:Hs;
      [by apply segments_nonempty in Hs|].
    destruct res_node as [items|t e sg ca ch].
    + destruct (items !! _); [apply IH'|done].
    + destruct (truthy res_id || sg); [|apply IH'].
      destruct (ch !! _) as [child|]; [|done].
      destruct (node_truthy child); [apply IH'|done].
Qed.

Lemma create_event_walk (env : Env) (self : Middleware) (request : Request.t)
    (response : option Response.t) :
  create_event env self request response
  = match path_tokens self request with
    | None => Raise AttributeError
    | Some tokens =>
        walk env self (NDict (_resource_specs self)) None None request
          response tokens
    end.
Proof.
  unfold create_event, path_tokens.
  destruct (_strip_url_prefix self request) as [path|]; [|done].
  by rewrite _build_event_walk.
Qed.

(** ** Cutting and joining at slashes *)

Lemma append_empty (s : string) : "" +:+ s = s.
Proof. reflexivity. Qed.

Lemma append_cons (a : ascii) (s t : string) :
  String a s +:+ t = String a (s +:+ t).
Proof. reflexivity. Qed.

Lemma find_no_slash (s : string) : no_slash s = true → find s "/" 0 = -1.
Proof.
  induction s as [|a s IH]; [done|]. cbn [no_slash].
  intros [Ha Hs]%andb_prop.
  rewrite find_0_cons. apply negb_true_iff in Ha. rewrite Ha.
  cbv zeta. by rewrite IH.
Qed.

Lemma find_first_slash (s rest : string) :
  no_slash s = true →
  find (s +:+ String "/" rest) "/" 0 = str_len s.
Proof.
  unfold str_len. induction s as [|a s IH]; cbn [no_slash].
  { intros _. by rewrite append_empty, find_0_cons. }
  intros [Ha Hs]%andb_prop. rewrite append_cons, find_0_cons.
  apply negb_true_iff in Ha. rewrite Ha. cbv zeta. rewrite IH by done.
  simpl String.length.
  destruct (Z.ltb_spec (Z.of_nat (String.length s)) 0); lia.
Qed.

Lemma slice_cons_0 (a : ascii) (s : string) (hi : nat) :
  slice (String a s) 0 (Z.of_nat (S hi)) = String a (slice s 0 (Z.of_nat hi)).
Proof.
  unfold slice, clamp, str_len.
  repeat match goal with
         | |- context [Z.ltb ?x 0] => destruct (Z.ltb_spec x 0); [lia|]
         end.
  simpl String.length.
  replace (Z.to_nat (Z.min 0 (Z.of_nat (S (String.length s))))) with 0%nat
    by lia.
  replace (Z.to_nat (Z.min 0 (Z.of_nat (String.length s)))) with 0%nat by lia.
  replace (Z.to_nat (Z.min (Z.of_nat (S hi)) (Z.of_nat (S (String.length s)))
                     - Z.min 0 (Z.of_nat (S (String.length s)))))
    with (S (Z.to_nat (Z.min (Z.of_nat hi) (Z.of_nat (String.length s))
                       - Z.min 0 (Z.of_nat (String.length s))))) by lia.
  reflexivity.
Qed.

Lemma slice_prefix (s rest : string) : slice (s +:+ rest) 0 (str_len s) = s.
Proof.
  unfold str_len. induction s as [|a s IH].
  - rewrite append_empty. unfold slice, clamp, str_len.
    change (Z.of_nat (String.length "") <? 0) with false. cbv iota.
    replace (Z.to_nat (_ - _)) with 0%nat by (simpl; lia).
    apply substring_nothing.
  - rewrite append_cons. cbn [String.length].
    rewrite slice_cons_0. by rewrite IH.
Qed.

Lemma slice_from_prefix (s rest : string) :
  slice_from (s +:+ rest) (str_len s) = rest.
Proof.
  unfold str_len. induction s as [|a s IH].
  - apply slice_from_0.
  - rewrite append_cons. cbn [String.length]. by rewrite slice_from_cons.
Qed.

Lemma slice_from_after (s : string) (a : ascii) (rest : string) :
  slice_from (s +:+ String a rest) (str_len s + 1) = rest.
Proof.
  unfold str_len. induction s as [|b s IH].
  - rewrite append_empty. change (Z.of_nat (String.length "") + 1)
      with (Z.of_nat 1). rewrite slice_from_cons. apply slice_from_0.
  - rewrite append_cons. cbn [String.length].
    replace (Z.of_nat (S (String.length s)) + 1)
      with (Z.of_nat (S (String.length s + 1))) by lia.
    rewrite slice_from_cons.
    replace (Z.of_nat (String.length s + 1))
      with (Z.of_nat (String.length s) + 1) by lia.
    apply IH.
Qed.

Lemma segments_no_slash (s : string) : no_slash s = true → segments s = [s].
Proof. intros H. rewrite segments_eq. by rewrite find_no_slash. Qed.

Lemma segments_cons (s rest : string) :
  no_slash s = true →
  segments (s +:+ "/" +:+ rest) = s :: segments rest.
Proof.
  intros H. rewrite segments_eq. change ("/" +:+ rest) with (String "/" rest).
  rewrite find_first_slash by done.
  destruct (Z.leb_spec 0 (str_len s)) as [_|?]; [|unfold str_len in *; lia].
  rewrite slice_prefix. by rewrite slice_from_after.
Qed.

(** Cutting a name that was joined from keys without slashes gives the keys
    back. *)
Lemma segments_join (keys : list string) :
  keys ≠ [] → Forall (λ key, no_slash key = true) keys →
  segments (join_slash keys) = keys.
Proof.
  induction keys as [|key [|key' keys] IH]; [done| |].
  - intros _ [Hk _]%Forall_cons. by apply segments_no_slash.
  - intros _ [Hk Hks]%Forall_cons.
    change (join_slash (key :: key' :: keys))
      with (key +:+ "/" +:+ join_slash (key' :: keys)).
    rewrite segments_cons by done. f_equal. by apply IH.
Qed.

(** ** The URL prefix *)

Lemma prefix_append (p rest : string) : String.prefix p (p +:+ rest) = true.
Proof.
  induction p as [|a p IH]; simpl; [by destruct rest|].
  destruct (ascii_dec a a); [exact IH|done].
Qed.

Lemma prefix_split (p s : string) :
  String.prefix p s = true → s = p +:+ slice_from s (str_len p).
Proof.
  revert s. unfold str_len.
  induction p as [|a p IH]; intros s.
  - intros _. by rewrite append_empty, slice_from_0.
  - destruct s as [|b s]; [done|]. cbn [String.prefix String.length].
    destruct (ascii_dec a b) as [->|?]; [|done]. intros H.
    rewrite append_cons, slice_from_cons. f_equal. by apply IH.
Qed.

Lemma append_inj_l (p s1 s2 : string) : p +:+ s1 = p +:+ s2 → s1 = s2.
Proof. induction p as [|a p IH]; simpl; [done|]. intros [= H]. by apply IH. Qed.

Lemma append_empty_r (s : string) : s +:+ "" = s.
Proof. induction s as [|a s IH]; [done|]. by rewrite append_cons, IH. Qed.

Lemma endswith_last_char (s : string) :
  endswith s "/"
  = match last_char s with Some a => Ascii.eqb a "/" | None => false end.
Proof.
  unfold endswith. induction s as [|a s IH]; [done|].
  destruct s as [|b s].
  - simpl. by destruct (Ascii.eqb a "/").
  - change (last_char (String a (String b s))) with (last_char (String b s)).
    rewrite <- IH. change (String.length "/") with 1%nat.
    cbn [String.length].
    replace (S (S (String.length s)) - 1)%nat with (S (String.length s))
      by lia.
    by replace (S (String.length s) - 1)%nat with (String.length s) by lia.
Qed.

Lemma last_char_None (s : string) : last_char s = None → s = "".
Proof.
  induction s as [|a s IH]; [done|]. destruct s as [|b s]; [done|].
  intros H. by apply IH in H.
Qed.

Lemma last_char_append (s t : string) :
  t ≠ "" → last_char (s +:+ t) = last_char t.
Proof.
  intros Ht. induction s as [|a s IH]; [done|]. rewrite append_cons.
  destruct (s +:+ t) as [|b u] eqn:E; [|exact IH].
  destruct s, t; done.
Qed.

Lemma last_char_no_slash (s : string) (a : ascii) :
  no_slash s = true → last_char s = Some a → Ascii.eqb a "/" = false.
Proof.
  induction s as [|b s IH]; [done|]. cbn [no_slash].
  intros [Hb Hs]%andb_prop. destruct s as [|c s].
  - intros [= <-]. by apply negb_true_iff.
  - by apply IH.
Qed.

Lemma last_char_join (keys : list string) (key : string) :
  last keys = Some key → key ≠ "" →
  last_char (join_slash keys) = last_char key.
Proof.
  induction keys as [|k [|k' keys] IH]; [done| |].
  - by intros [= ->].
  - intros Hl Hk.
    change (join_slash (k :: k' :: keys))
      with (k +:+ "/" +:+ join_slash (k' :: keys)).
    assert (last_char (join_slash (k' :: keys)) = last_char key) as Hj
      by by apply IH.
    assert (join_slash (k' :: keys) ≠ "") as Hne.
    { intros E. rewrite E in Hj. symmetry in Hj.
      by apply last_char_None in Hj. }
    rewrite last_char_append; [|by destruct (join_slash (k' :: keys))].
    rewrite <- Hj. change ("/" +:+ join_slash (k' :: keys))
      with (String "/" (join_slash (k' :: keys))).
    by destruct (join_slash (k' :: keys)).
Qed.

Lemma strip_exact (self : Middleware) (request : Request.t) (rest : string) :
  _strip_url_prefix self request = Some rest ↔
  Request.path request
  = format (_prefix_template self) (project_or_domain_id request) +:+ rest.
Proof.
  unfold _strip_url_prefix, startswith. split.
  - destruct (String.prefix _ _) eqn:Hp; [|done]. intros [= <-].
    by apply prefix_split.
  - intros ->. by rewrite prefix_append, slice_from_prefix.
Qed.

Lemma path_tokens_of_path (self : Middleware) (request : Request.t)
    (keys : list string) (key trailing : string) :
  Forall (λ k, no_slash k = true) keys →
  last keys = Some key → key ≠ "" →
  trailing = "" ∨ trailing = "/" →
  Request.path request
  = format (_prefix_template self) (project_or_domain_id request)
    +:+ "/" +:+ join_slash keys +:+ trailing →
  path_tokens self request = Some keys.
Proof.
  intros Hall Hlast Hkey Htr Hpath. unfold path_tokens.
  apply strip_exact in Hpath. rewrite Hpath.
  assert (keys ≠ []) as Hne by by destruct keys.
  assert (endswith ("/" +:+ join_slash keys) "/" = false) as Hend.
  { rewrite endswith_last_char.
    change ("/" +:+ join_slash keys) with (String "/" (join_slash keys)).
    pose proof (last_char_join keys key Hlast Hkey) as Hj.
    destruct (join_slash keys) as [|a s] eqn:E;
      [symmetry in Hj; by apply last_char_None in Hj|].
    change (last_char (String "/" (String a s))) with (last_char (String a s)).
    rewrite Hj. destruct (last_char key) as [c|] eqn:Hc; [|done].
    eapply last_char_no_slash; [|exact Hc].
    eapply Forall_forall in Hall; [exact Hall|]. by apply last_Some_elem_of. }
  f_equal. destruct Htr as [-> | ->].
  - rewrite append_empty_r, Hend.
    change ("/" +:+ join_slash keys) with (String "/" (join_slash keys)).
    change 1 with (Z.of_nat 1). rewrite slice_from_cons, slice_from_0.
    by apply segments_join.
  - change ("/" +:+ join_slash keys +:+ "/")
      with (("/" +:+ join_slash keys) +:+ String "/" "").
    assert (endswith (("/" +:+ join_slash keys) +:+ String "/" "") "/" = true)
      as ->.
    { rewrite endswith_last_char, last_char_append by done. done. }
    rewrite slice_init.
    change ("/" +:+ join_slash keys) with (String "/" (join_slash keys)).
    change 1 with (Z.of_nat 1). rewrite slice_from_cons, slice_from_0.
    by apply segments_join.
Qed.

(** ** Events of the paths of a resource *)

Lemma _get_action_crud (res_spec : Node) (res_id : option string)
    (request : Request.t) (verb : string) :
  crud_verb (method_of (Request.method request)) = Some verb →
  truthy res_id = true →
  _get_action res_spec res_id request None = Ok (Some verb).
Proof.
  intros Hv Hid. rewrite _get_action_table, Hid.
  by destruct (method_of (Request.method request)); simplify_eq/=.
Qed.

Lemma _get_action_crud_suffix (res_spec : Node) (res_id : option string)
    (request : Request.t) (action_suffix : option string) (verb : string) :
  crud_verb (method_of (Request.method request)) = Some verb →
  method_of (Request.method request) ≠ GET →
  _get_action res_spec res_id request action_suffix = Ok (Some verb).
Proof.
  intros Hv Hg. rewrite _get_action_table.
  by destruct (method_of (Request.method request)), action_suffix;
    simplify_eq/=.
Qed.

Lemma crud_verb_not_list (method : Method) (verb : string) :
  crud_verb method = Some verb → verb ≠ "" ∧ String.eqb verb "list" = false.
Proof. by destruct method; intros [= <-]. Qed.

Lemma crud_verb_not_post (m verb : string) :
  crud_verb (method_of m) = Some verb → String.eqb m "POST" = false.
Proof.
  intros Hv. apply String.eqb_neq. intros ->. by vm_compute in Hv.
Qed.

(** With an id bound and an action, [_create_event] does not filter the
    request out, and an event that it returns has that action and a target
    with that id. *)
Lemma _create_event_bound (env : Env) (self : Middleware) (type_uri : string)
    (el_type_uri : option string) (singleton : bool)
    (custom_actions : gmap string string) (children : gmap string Node)
    (res_id : string) (request : Request.t) (response : option Response.t)
    (action_suffix : option string) (verb : string)
    (r : py (option Event.t)) :
  _get_action (NSpec type_uri el_type_uri singleton custom_actions children)
    (Some res_id) request action_suffix = Ok (Some verb) →
  verb ≠ "" → res_id ≠ "" →
  r = _create_event env self
        (NSpec type_uri el_type_uri singleton custom_actions children)
        (Some res_id) request response action_suffix →
  r ≠ Ok None
  ∧ ∀ event, r = Ok (Some event) →
      Event.action event = verb
      ∧ Event.target event
        = target_of res_id
            (if String.eqb verb taxonomy.ACTION_LIST || singleton
             then Some type_uri else el_type_uri).
Proof.
  intros Ha Hv Hid ->. unfold _create_event. rewrite Ha. simpl.
  apply String.eqb_neq in Hv, Hid. rewrite Hv, Hid. simpl.
  destruct (String.eqb verb taxonomy.ACTION_LIST), singleton; simpl;
    (split; [done|by intros event [= <-]]).
Qed.

Lemma end_of_path_not_post (env : Env) (self : Middleware) (res_node : Node)
    (res_id res_parent_id : option string) (request : Request.t)
    (response : option Response.t) :
  String.eqb (Request.method request) "POST" = false →
  end_of_path env self res_node res_id res_parent_id request response
  = _create_event env self res_node (py_or res_id res_parent_id) request
      response None.
Proof.
  intros Hm. unfold end_of_path. rewrite Hm.
  by destruct (_create_event _ _ _ _ _ _ _).
Qed.

Lemma truthy_Some (s : string) : s ≠ "" → truthy (Some s) = true.
Proof. intros H. apply String.eqb_neq in H. simpl. by rewrite H. Qed.

Lemma py_or_Some (s : string) (other : option string) :
  s ≠ "" → py_or (Some s) other = Some s.
Proof. intros H. unfold py_or. by rewrite truthy_Some. Qed.

Lemma walk_dict (env : Env) (self : Middleware) (items : gmap string Node)
    (res_id res_parent_id : option string) (request : Request.t)
    (response : option Response.t) (token : string) (rest : list string)
    (res_node : Node) :
  items !! token = Some res_node →
  walk env self (NDict items) res_id res_parent_id request response
    (token :: rest)
  = walk env self res_node None None request response rest.
Proof. intros H. simpl. by rewrite H. Qed.

Lemma walk_id (env : Env) (self : Middleware) (type_uri : string)
    (el_type_uri : option string) (custom_actions : gmap string string)
    (children : gmap string Node) (res_id res_parent_id : option string)
    (request : Request.t) (response : option Response.t) (token : string)
    (rest : list string) :
  truthy res_id = false →
  walk env self (NSpec type_uri el_type_uri false custom_actions children)
    res_id res_parent_id request response (token :: rest)
  = walk env self (NSpec type_uri el_type_uri false custom_actions children)
      (Some token) res_parent_id request response rest.
Proof. intros H. cbn [walk]. by rewrite H. Qed.

Lemma walk_action (env : Env) (self : Middleware) (type_uri : string)
    (el_type_uri : option string) (singleton : bool)
    (custom_actions : gmap string string)
    (children : gmap string Node) (res_id res_parent_id : option string)
    (request : Request.t) (response : option Response.t) (token : string) :
  truthy res_id || singleton = true →
  children !! token = None →
  walk env self (NSpec type_uri el_type_uri singleton custom_actions children)
    res_id res_parent_id request response [token]
  = _create_event env self
      (NSpec type_uri el_type_uri singleton custom_actions children)
      (py_or res_id res_parent_id) request response (Some token).
Proof. intros H Hc. cbn [walk]. by rewrite H, Hc. Qed.

Lemma walk_child (env : Env) (self : Middleware) (type_uri : string)
    (el_type_uri : option string) (singleton : bool)
    (custom_actions : gmap string string)
    (children : gmap string Node) (res_id res_parent_id : option string)
    (request : Request.t) (response : option Response.t) (token : string)
    (rest : list string) (child_res : Node) :
  truthy res_id || singleton = true →
  children !! token = Some child_res →
  node_truthy child_res = true →
  walk env self (NSpec type_uri el_type_uri singleton custom_actions children)
    res_id res_parent_id request response (token :: rest)
  = walk env self child_res None (py_or res_id res_parent_id) request
      response rest.
Proof. intros H Hc Ht. cbn [walk]. by rewrite H, Hc, Ht. Qed.

Lemma walk_stray (env : Env) (self : Middleware) (type_uri : string)
    (el_type_uri : option string) (singleton : bool)
    (custom_actions : gmap string string)
    (children : gmap string Node) (res_id res_parent_id : option string)
    (request : Request.t) (response : option Response.t) (token next : string)
    (rest : list string) :
  truthy res_id || singleton = true →
  children !! token = None →
  walk env self (NSpec type_uri el_type_uri singleton custom_actions children)
    res_id res_parent_id request response (token :: next :: rest)
  = Ok None.
Proof. intros H Hc. cbn [walk]. by rewrite H, Hc. Qed.

Lemma truthy_bound (s : string) (singleton : bool) :
  s ≠ "" → truthy (Some s) || singleton = true.
Proof. intros H. by rewrite truthy_Some. Qed.

(** X10.  A request on [<prefix>/<name>/<id>] for a resource that is not a
    singleton, with a method other than [POST] that the table knows, is
    resolved to one call of [_create_event] on the resource with the id of
    the path and no suffix.  It is not filtered out, and an event that is
    returned for it has the verb of the method and a target with the id of
    the path and the element type URI of the resource. *)
Theorem element_request (env : Env) (self : Middleware) (request : Request.t)
    (response : option Response.t) (name res_id : string) (type_uri : string)
    (el_type_uri : option string) (custom_actions : gmap string string)
    (children : gmap string Node) (verb : string) :
  path_tokens self request = Some [name; res_id] →
  _resource_specs self !! name
    = Some (NSpec type_uri el_type_uri false custom_actions children) →
  res_id ≠ "" →
  crud_verb (method_of (Request.method request)) = Some verb →
  create_event env self request response
  = _create_event env self
      (NSpec type_uri el_type_uri false custom_actions children)
      (Some res_id) request response None
  ∧ create_event env self request response ≠ Ok None
  ∧ ∀ event, create_event env self request response = Ok (Some event) →
      Event.action event = verb
      ∧ Event.target event = target_of res_id el_type_uri.
Proof.
  intros Htok Hspec Hid Hv.
  assert (create_event env self request response
          = _create_event env self
              (NSpec type_uri el_type_uri false custom_actions children)
              (Some res_id) request response None) as Heq.
  { rewrite create_event_walk, Htok.
    rewrite (walk_dict _ _ _ _ _ _ _ _ _ _ Hspec), walk_id by done.
    cbn [walk].
    rewrite end_of_path_not_post by by eapply crud_verb_not_post.
    by rewrite py_or_Some. }
  split; [exact Heq|].
  destruct (crud_verb_not_list _ _ Hv) as [Hne Hl].
  destruct (_create_event_bound _ _ _ _ _ _ _ _ _ _ _ verb _
              (_get_action_crud _ _ _ _ Hv (truthy_Some _ Hid)) Hne Hid Heq)
    as [Hsome Hfields].
  split; [exact Hsome|]. intros event He.
  destruct (Hfields event He) as [Ha Ht]. split; [exact Ha|].
  rewrite Ht. change taxonomy.ACTION_LIST with "list". by rewrite Hl.
Qed.

Lemma element_request_witness :
  create_event example_env example_middleware
    (example_request "DELETE" "/v2/p1/servers/abc" None)
    (Some (Response.mk 204 None))
  = _create_event example_env example_middleware
      (NSpec "compute/servers" (Some "compute/servers/server") false ∅ ∅)
      (Some "abc") (example_request "DELETE" "/v2/p1/servers/abc" None)
      (Some (Response.mk 204 None)) None
  ∧ create_event example_env example_middleware
      (example_request "DELETE" "/v2/p1/servers/abc" None)
      (Some (Response.mk 204 None)) ≠ Ok None
  ∧ ∀ event,
      create_event example_env example_middleware
        (example_request "DELETE" "/v2/p1/servers/abc" None)
        (Some (Response.mk 204 None)) = Ok (Some event) →
      Event.action event = "delete"
      ∧ Event.target event = target_of "abc" (Some "compute/servers/server").
Proof.
  apply (element_request example_env example_middleware
           (example_request "DELETE" "/v2/p1/servers/abc" None)
           (Some (Response.mk 204 None)) "servers" "abc" "compute/servers"
           (Some "compute/servers/server") ∅ ∅ "delete").
  - vm_compute. reflexivity.
  - reflexivity.
  - done.
  - reflexivity.
Defined.

(** X11.  A [POST] or [GET] on [<prefix>/<name>/<id>/<suffix>], where
    [<suffix>] is not a child of the resource, is resolved to one call of
    [_create_event] on the resource with the id of the path and the suffix.
    Where the table of the resource has an action for the raw action token,
    the request is not filtered out, and an event that is returned for it
    has that action and a target with the id of the path. *)
Theorem custom_action_request (env : Env) (self : Middleware)
    (request : Request.t) (response : option Response.t)
    (name res_id suffix token : string) (type_uri : string)
    (el_type_uri : option string) (custom_actions : gmap string string)
    (children : gmap string Node) (verb : string) :
  path_tokens self request = Some [name; res_id; suffix] →
  _resource_specs self !! name
    = Some (NSpec type_uri el_type_uri false custom_actions children) →
  res_id ≠ "" →
  children !! suffix = None →
  Request.method request = "POST" ∨ Request.method request = "GET" →
  raw_action_token suffix request = Some token →
  customActionLookup custom_actions token = Some verb →
  verb ≠ "" →
  create_event env self request response
  = _create_event env self
      (NSpec type_uri el_type_uri false custom_actions children)
      (Some res_id) request response (Some suffix)
  ∧ create_event env self request response ≠ Ok None
  ∧ ∀ event, create_event env self request response = Ok (Some event) →
      Event.action event = verb
      ∧ Resource.id (Event.target event) = JStr res_id.
Proof.
  intros Htok Hspec Hid Hch Hm Hraw Hlook Hv.
  assert (create_event env self request response
          = _create_event env self
              (NSpec type_uri el_type_uri false custom_actions children)
              (Some res_id) request response (Some suffix)) as Heq.
  { rewrite create_event_walk, Htok.
    rewrite (walk_dict _ _ _ _ _ _ _ _ _ _ Hspec), walk_id by done.
    by rewrite walk_action, py_or_Some by (done || by apply truthy_bound). }
  split; [exact Heq|].
  assert (_get_action
            (NSpec type_uri el_type_uri false custom_actions children)
            (Some res_id) request (Some suffix) = Ok (Some verb)) as Hact.
  { rewrite _get_action_table.
    destruct Hm as [-> | ->]; simpl;
      by rewrite (get_custom_action_lookup _ _ _ _ _ _ _ _ Hraw), Hlook. }
  destruct (_create_event_bound _ _ _ _ _ _ _ _ _ _ _ verb _ Hact Hv Hid Heq)
    as [Hsome Hfields].
  split; [exact Hsome|]. intros event He.
  destruct (Hfields event He) as [Ha Ht]. split; [exact Ha|]. by rewrite Ht.
Qed.

Lemma custom_action_request_witness :
  create_event example_env example_middleware
    (example_request "POST" "/v2/p1/servers/abc/action"
       (Some (JObj [("reboot", JObj [])])))
    (Some (Response.mk 202 None))
  = _create_event example_env example_middleware
      (NSpec "compute/servers" (Some "compute/servers/server") false ∅ ∅)
      (Some "abc")
      (example_request "POST" "/v2/p1/servers/abc/action"
         (Some (JObj [("reboot", JObj [])])))
      (Some (Response.mk 202 None)) (Some "action")
  ∧ create_event example_env example_middleware
      (example_request "POST" "/v2/p1/servers/abc/action"
         (Some (JObj [("reboot", JObj [])])))
      (Some (Response.mk 202 None)) ≠ Ok None
  ∧ ∀ event,
      create_event example_env example_middleware
        (example_request "POST" "/v2/p1/servers/abc/action"
           (Some (JObj [("reboot", JObj [])])))
        (Some (Response.mk 202 None)) = Ok (Some event) →
      Event.action event = "update/reboot"
      ∧ Resource.id (Event.target event) = JStr "abc".
Proof.
  apply (custom_action_request example_env example_middleware
           (example_request "POST" "/v2/p1/servers/abc/action"
              (Some (JObj [("reboot", JObj [])])))
           (Some (Response.mk 202 None)) "servers" "abc" "action" "reboot"
           "compute/servers" (Some "compute/servers/server") ∅ ∅
           "update/reboot").
  - vm_compute. reflexivity.
  - reflexivity.
  - done.
  - reflexivity.
  - by left.
  - reflexivity.
  - vm_compute. reflexivity.
  - done.
Defined.

(** X12.  [PUT], [PATCH], [DELETE] and [HEAD] do not look at a trailing
    segment: on [<prefix>/<name>/<id>/<suffix>], where [<suffix>] is not a
    child of the resource, the request is not filtered out, whatever the
    suffix and the table of custom actions are, and an event that is
    returned for it has the verb of the method and the target of the
    element [<id>]. *)
Theorem suffix_ignored_by_verbs (env : Env) (self : Middleware)
    (request : Request.t) (response : option Response.t)
    (name res_id suffix : string) (type_uri : string)
    (el_type_uri : option string) (custom_actions : gmap string string)
    (children : gmap string Node) (verb : string) :
  path_tokens self request = Some [name; res_id; suffix] →
  _resource_specs self !! name
    = Some (NSpec type_uri el_type_uri false custom_actions children) →
  res_id ≠ "" →
  children !! suffix = None →
  crud_verb (method_of (Request.method request)) = Some verb →
  method_of (Request.method request) ≠ GET →
  create_event env self request response
  = _create_event env self
      (NSpec type_uri el_type_uri false custom_actions children)
      (Some res_id) request response (Some suffix)
  ∧ create_event env self request response ≠ Ok None
  ∧ ∀ event, create_event env self request response = Ok (Some event) →
      Event.action event = verb
      ∧ Event.target event = target_of res_id el_type_uri.
Proof.
  intros Htok Hspec Hid Hch Hv Hg.
  assert (create_event env self request response
          = _create_event env self
              (NSpec type_uri el_type_uri false custom_actions children)
              (Some res_id) request response (Some suffix)) as Heq.
  { rewrite create_event_walk, Htok.
    rewrite (walk_dict _ _ _ _ _ _ _ _ _ _ Hspec), walk_id by done.
    by rewrite walk_action, py_or_Some by (done || by apply truthy_bound). }
  split; [exact Heq|].
  destruct (crud_verb_not_list _ _ Hv) as [Hne Hl].
  destruct (_create_event_bound _ _ _ _ _ _ _ _ _ _ _ verb _
              (_get_action_crud_suffix _ _ _ _ _ Hv Hg) Hne Hid Heq)
    as [Hsome Hfields].
  split; [exact Hsome|]. intros event He.
  destruct (Hfields event He) as [Ha Ht]. split; [exact Ha|].
  rewrite Ht. change taxonomy.ACTION_LIST with "list". by rewrite Hl.
Qed.

Lemma suffix_ignored_by_verbs_witness :
  create_event example_env example_middleware
    (example_request "DELETE" "/v2/p1/servers/abc/anything" None) None
  = _create_event example_env example_middleware
      (NSpec "compute/servers" (Some "compute/servers/server") false ∅ ∅)
      (Some "abc")
      (example_request "DELETE" "/v2/p1/servers/abc/anything" None) None
      (Some "anything")
  ∧ create_event example_env example_middleware
      (example_request "DELETE" "/v2/p1/servers/abc/anything" None) None
    ≠ Ok None
  ∧ ∀ event,
      create_event example_env example_middleware
        (example_request "DELETE" "/v2/p1/servers/abc/anything" None) None
      = Ok (Some event) →
      Event.action event = "delete"
      ∧ Event.target event = target_of "abc" (Some "compute/servers/server").
Proof.
  apply (suffix_ignored_by_verbs example_env example_middleware
           (example_request "DELETE" "/v2/p1/servers/abc/anything" None) None
           "servers" "abc" "anything" "compute/servers"
           (Some "compute/servers/server") ∅ ∅ "delete").
  - vm_compute. reflexivity.
  - reflexivity.
  - done.
  - reflexivity.
  - reflexivity.
  - done.
Defined.

(** X13.  A request on the child collection [<prefix>/<name>/<id>/<child>]
    keeps the id of the parent: with a method other than [POST] that the
    table knows, it is resolved to one call of [_create_event] on the child
    with the id of the parent.  It is not filtered out, and an event that is
    returned for it has the verb of the method ([read] for [GET], as an id
    is bound) and a target with the id of the parent and the element type
    URI of the child, or its collection type URI when the child is a
    singleton. *)
Theorem child_collection_request (env : Env) (self : Middleware)
    (request : Request.t) (response : option Response.t)
    (name res_id child : string) (type_uri : string)
    (el_type_uri : option string) (custom_actions : gmap string string)
    (children : gmap string Node) (child_type_uri : string)
    (child_el_type_uri : option string) (child_singleton : bool)
    (child_custom_actions : gmap string string)
    (child_children : gmap string Node) (verb : string) :
  path_tokens self request = Some [name; res_id; child] →
  _resource_specs self !! name
    = Some (NSpec type_uri el_type_uri false custom_actions children) →
  res_id ≠ "" →
  children !! child
    = Some (NSpec child_type_uri child_el_type_uri child_singleton
              child_custom_actions child_children) →
  crud_verb (method_of (Request.method request)) = Some verb →
  create_event env self request response
  = _create_event env self
      (NSpec child_type_uri child_el_type_uri child_singleton
         child_custom_actions child_children)
      (Some res_id) request response None
  ∧ create_event env self request response ≠ Ok None
  ∧ ∀ event, create_event env self request response = Ok (Some event) →
      Event.action event = verb
      ∧ Event.target event
        = target_of res_id
            (if child_singleton then Some child_type_uri
             else child_el_type_uri).
Proof.
  intros Htok Hspec Hid Hch Hv.
  assert (create_event env self request response
          = _create_event env self
              (NSpec child_type_uri child_el_type_uri child_singleton
                 child_custom_actions child_children)
              (Some res_id) request response None) as Heq.
  { rewrite create_event_walk, Htok.
    rewrite (walk_dict _ _ _ _ _ _ _ _ _ _ Hspec), walk_id by done.
    rewrite (walk_child _ _ _ _ _ _ _ _ _ _ _ _ _ _
               (truthy_bound _ _ Hid) Hch eq_refl).
    cbn [walk].
    rewrite end_of_path_not_post by by eapply crud_verb_not_post.
    by rewrite py_or_Some. }
  split; [exact Heq|].
  destruct (crud_verb_not_list _ _ Hv) as [Hne Hl].
  destruct (_create_event_bound _ _ _ _ _ _ _ _ _ _ _ verb _
              (_get_action_crud _ _ _ _ Hv (truthy_Some _ Hid)) Hne Hid Heq)
    as [Hsome Hfields].
  split; [exact Hsome|]. intros event He.
  destruct (Hfields event He) as [Ha Ht]. split; [exact Ha|].
  rewrite Ht. change taxonomy.ACTION_LIST with "list". by rewrite Hl.
Qed.

Lemma child_collection_request_witness :
  create_event example_env nested_middleware
    (example_request "GET" "/v2/p1/servers/abc/volumes" None) None
  = _create_event example_env nested_middleware
      (NSpec "compute/servers/volumes"
         (Some "compute/servers/volumes/volume") false ∅ ∅)
      (Some "abc") (example_request "GET" "/v2/p1/servers/abc/volumes" None)
      None None
  ∧ create_event example_env nested_middleware
      (example_request "GET" "/v2/p1/servers/abc/volumes" None) None
    ≠ Ok None
  ∧ ∀ event,
      create_event example_env nested_middleware
        (example_request "GET" "/v2/p1/servers/abc/volumes" None) None
      = Ok (Some event) →
      Event.action event = "read"
      ∧ Event.target event
        = target_of "abc"
            (if false then Some "compute/servers/volumes"
             else Some "compute/servers/volumes/volume").
Proof.
  apply (child_collection_request example_env nested_middleware
           (example_request "GET" "/v2/p1/servers/abc/volumes" None) None
           "servers" "abc" "volumes" "compute/servers"
           (Some "compute/servers/server") ∅ {[ "volumes" := volumes_spec ]}
           "compute/servers/volumes" (Some "compute/servers/volumes/volume")
           false ∅ ∅ "read").
  - vm_compute. reflexivity.
  - reflexivity.
  - done.
  - reflexivity.
  - reflexivity.
Defined.

(** X14.  A request on the element [<prefix>/<name>/<id>/<child>/<cid>] of a
    child collection that is not a singleton, with a method other than
    [POST] that the table knows, is resolved to one call of [_create_event]
    on the child with the id of the child element.  It is not filtered out,
    and an event that is returned for it has the verb of the method and a
    target with the id of the child element and the element type URI of the
    child; the id of the parent is in neither. *)
Theorem child_element_request (env : Env) (self : Middleware)
    (request : Request.t) (response : option Response.t)
    (name res_id child child_id : string) (type_uri : string)
    (el_type_uri : option string) (custom_actions : gmap string string)
    (children : gmap string Node) (child_type_uri : string)
    (child_el_type_uri : option string)
    (child_custom_actions : gmap string string)
    (child_children : gmap string Node) (verb : string) :
  path_tokens self request = Some [name; res_id; child; child_id] →
  _resource_specs self !! name
    = Some (NSpec type_uri el_type_uri false custom_actions children) →
  res_id ≠ "" → child_id ≠ "" →
  children !! child
    = Some (NSpec child_type_uri child_el_type_uri false
              child_custom_actions child_children) →
  crud_verb (method_of (Request.method request)) = Some verb →
  create_event env self request response
  = _create_event env self
      (NSpec child_type_uri child_el_type_uri false child_custom_actions
         child_children)
      (Some child_id) request response None
  ∧ create_event env self request response ≠ Ok None
  ∧ ∀ event, create_event env self request response = Ok (Some event) →
      Event.action event = verb
      ∧ Event.target event = target_of child_id child_el_type_uri.
Proof.
  intros Htok Hspec Hid Hcid Hch Hv.
  assert (create_event env self request response
          = _create_event env self
              (NSpec child_type_uri child_el_type_uri false
                 child_custom_actions child_children)
              (Some child_id) request response None) as Heq.
  { rewrite create_event_walk, Htok.
    rewrite (walk_dict _ _ _ _ _ _ _ _ _ _ Hspec), walk_id by done.
    rewrite (walk_child _ _ _ _ _ _ _ _ _ _ _ _ _ _
               (truthy_bound _ _ Hid) Hch eq_refl).
    rewrite walk_id by done. cbn [walk].
    rewrite end_of_path_not_post by by eapply crud_verb_not_post.
    by rewrite py_or_Some. }
  split; [exact Heq|].
  destruct (crud_verb_not_list _ _ Hv) as [Hne Hl].
  destruct (_create_event_bound _ _ _ _ _ _ _ _ _ _ _ verb _
              (_get_action_crud _ _ _ _ Hv (truthy_Some _ Hcid)) Hne Hcid Heq)
    as [Hsome Hfields].
  split; [exact Hsome|]. intros event He.
  destruct (Hfields event He) as [Ha Ht]. split; [exact Ha|].
  rewrite Ht. change taxonomy.ACTION_LIST with "list". by rewrite Hl.
Qed.

Lemma child_element_request_witness :
  create_event example_env nested_middleware
    (example_request "PUT" "/v2/p1/servers/abc/volumes/v7" None) None
  = _create_event example_env nested_middleware
      (NSpec "compute/servers/volumes"
         (Some "compute/servers/volumes/volume") false ∅ ∅)
      (Some "v7")
      (example_request "PUT" "/v2/p1/servers/abc/volumes/v7" None) None None
  ∧ create_event example_env nested_middleware
      (example_request "PUT" "/v2/p1/servers/abc/volumes/v7" None) None
    ≠ Ok None
  ∧ ∀ event,
      create_event example_env nested_middleware
        (example_request "PUT" "/v2/p1/servers/abc/volumes/v7" None) None
      = Ok (Some event) →
      Event.action event = "update"
      ∧ Event.target event
        = target_of "v7" (Some "compute/servers/volumes/volume").
Proof.
  apply (child_element_request example_env nested_middleware
           (example_request "PUT" "/v2/p1/servers/abc/volumes/v7" None) None
           "servers" "abc" "volumes" "v7" "compute/servers"
           (Some "compute/servers/server") ∅ {[ "volumes" := volumes_spec ]}
           "compute/servers/volumes" (Some "compute/servers/volumes/volume")
           ∅ ∅ "update").
  - vm_compute. reflexivity.
  - reflexivity.
  - done.
  - done.
  - reflexivity.
  - reflexivity.
Defined.

(** X15.  A request on [<prefix>/<name>/<rest>] whose first segment is not a
    key of the grammar gives no event, whatever follows. *)
Theorem unknown_resource_request (env : Env) (self : Middleware)
    (request : Request.t) (response : option Response.t) (name : string)
    (rest : list string) :
  path_tokens self request = Some (name :: rest) →
  _resource_specs self !! name = None →
  create_event env self request response = Ok None.
Proof.
  intros Htok Hspec. rewrite create_event_walk, Htok. cbn [walk].
  by rewrite Hspec.
Qed.

Lemma unknown_resource_request_witness :
  create_event example_env example_middleware
    (example_request "GET" "/v2/p1/flavors/7" None) None = Ok None.
Proof.
  apply (unknown_resource_request example_env example_middleware
           (example_request "GET" "/v2/p1/flavors/7" None) None "flavors"
           ["7"]).
  - vm_compute. reflexivity.
  - reflexivity.
Defined.

(** X16.  A request on [<prefix>/<name>/<id>/<x>/<y>/...] where [<x>] is not a
    child of the resource gives no event: a segment that is not a child is
    an action only when it is the last one. *)
Theorem unexpected_continuation_request (env : Env) (self : Middleware)
    (request : Request.t) (response : option Response.t)
    (name res_id x y : string) (rest : list string) (type_uri : string)
    (el_type_uri : option string) (custom_actions : gmap string string)
    (children : gmap string Node) :
  path_tokens self request = Some (name :: res_id :: x :: y :: rest) →
  _resource_specs self !! name
    = Some (NSpec type_uri el_type_uri false custom_actions children) →
  res_id ≠ "" →
  children !! x = None →
  create_event env self request response = Ok None.
Proof.
  intros Htok Hspec Hid Hch. rewrite create_event_walk, Htok.
  rewrite (walk_dict _ _ _ _ _ _ _ _ _ _ Hspec), walk_id by done.
  by rewrite walk_stray by (done || by apply truthy_bound).
Qed.

Lemma unexpected_continuation_request_witness :
  create_event example_env example_middleware
    (example_request "GET" "/v2/p1/servers/abc/os-volumes/5" None) None
  = Ok None.
Proof.
  apply (unexpected_continuation_request example_env example_middleware
           (example_request "GET" "/v2/p1/servers/abc/os-volumes/5" None)
           None "servers" "abc" "os-volumes" "5" [] "compute/servers"
           (Some "compute/servers/server") ∅ ∅).
  - vm_compute. reflexivity.
  - reflexivity.
  - done.
  - reflexivity.
Defined.

(** ** [_put_hier] *)

(** X1.  What [_put_hier] puts under a name joined from keys without slashes
    is found again by subscripting with the keys one after the other. *)
Theorem put_hier_then_subscript (dct dct' : gmap string Node)
    (keys : list string) (object : Node) :
  keys ≠ [] → Forall (λ key, no_slash key = true) keys →
  _put_hier dct (join_slash keys) object = Ok dct' →
  descend (NDict dct') keys = Some object.
Proof.
  intros Hne Hall Hput. rewrite <- (segments_join keys) by done.
  by eapply _put_hier_descend.
Qed.

Lemma put_hier_then_subscript_witness :
  descend
    (NDict {[ "a" := NDict {[ "b" := NDict {[ "c" := servers_spec ]} ]} ]})
    ["a"; "b"; "c"]
  = Some servers_spec.
Proof.
  apply (put_hier_then_subscript ∅ _ ["a"; "b"; "c"] servers_spec).
  - done.
  - by repeat constructor.
  - vm_compute. reflexivity.
Defined.

(** X2.  [_put_hier] leaves every [ResourceSpec] of the dict where it was,
    except one that lies where the name leads or below a dict that the name
    replaces. *)
Theorem put_hier_keeps_others (dct dct' : gmap string Node)
    (hier_name : string) (object : Node) (keys : list string) (n : Node) :
  _put_hier dct hier_name object = Ok dct' →
  descend (NDict dct) keys = Some n → is_spec n →
  ¬ segments hier_name `prefix_of` keys →
  descend (NDict dct') keys = Some n.
Proof. apply _put_hier_descend_other. Qed.

Lemma put_hier_keeps_others_witness :
  descend
    (NDict {[ "a" := NDict {[ "b" := servers_spec; "c" := volumes_spec ]} ]})
    ["a"; "b"]
  = Some servers_spec.
Proof.
  apply (put_hier_keeps_others {[ "a" := NDict {[ "b" := servers_spec ]} ]} _
           "a/c" volumes_spec ["a"; "b"] servers_spec).
  - vm_compute. reflexivity.
  - vm_compute. reflexivity.
  - exact I.
  - vm_compute. intros [k Hk]. discriminate Hk.
Defined.

Lemma descend_empty (keys : list string) (n : Node) :
  keys ≠ [] → descend (NDict ∅) keys ≠ Some n.
Proof. destruct keys as [|key keys]; [done|]. simpl. by rewrite lookup_empty. Qed.

Lemma _put_hier_raises (hier_name : string) (object : Node) :
  ∀ dct e,
    _put_hier dct hier_name object = Raise e ↔
    e = TypeError
    ∧ ∃ keys more spec,
        segments hier_name = keys ++ more ∧ keys ≠ [] ∧ more ≠ []
        ∧ descend (NDict dct) keys = Some spec ∧ is_spec spec.
Proof.
  remember (String.length hier_name) as len eqn:Hlen. revert hier_name Hlen.
  induction len as [len IH] using lt_wf_ind.
  intros hier_name -> dct e. rewrite _put_hier_eq, segments_eq. cbv zeta.
  destruct (Z.leb_spec 0 (find hier_name "/" 0)) as [Hpos|Hpos].
  - set (segment := slice hier_name 0 _). set (rest := slice_from _ _).
    assert (String.length rest < String.length hier_name)%nat as Hlt.
    { apply slice_from_shorter; [done|].
      intros ->. by rewrite find_empty in Hpos. }
    destruct (default (NDict ∅) (dct !! segment)) as [sub|t u sg ca ch] eqn:Hsub.
    + pose proof (IH _ Hlt rest eq_refl sub) as IH'.
      destruct (_put_hier sub rest object) as [sub'|e'] eqn:Hput; simpl.
      * split; [done|].
        intros (-> & keys & more & spec & Hs & Hk & Hm & Hd & Hsp).
        destruct keys as [|key keys]; [done|]. injection Hs as <- Hs.
        simpl in Hd. destruct (dct !! segment) as [m|] eqn:Hl; [|done].
        simpl in Hsub, Hd. subst m.
        destruct keys as [|key' keys]; [by simplify_eq/=|].
        assert (Ok sub' = Raise TypeError) as H; [|done].
        apply IH'. split; [done|]. by exists (key' :: keys), more, spec.
      * split.
        -- intros [= <-].
           destruct (proj1 (IH' e') eq_refl)
             as (-> & keys & more & spec & Hs & Hk & Hm & Hd & Hsp).
           split; [done|]. exists (segment :: keys), more, spec.
           rewrite Hs. repeat split; try done. simpl.
           destruct (dct !! segment) as [m|] eqn:Hl; simpl in *.
           ++ by subst m.
           ++ injection Hsub as <-. by apply descend_empty in Hd.
        -- intros (-> & keys & more & spec & Hs & Hk & Hm & Hd & Hsp).
           destruct keys as [|key keys]; [done|]. injection Hs as <- Hs.
           simpl in Hd. destruct (dct !! segment) as [m|] eqn:Hl; [|done].
           simpl in Hsub, Hd. subst m.
           destruct keys as [|key' keys]; [by simplify_eq/=|].
           apply IH'. split; [done|]. by exists (key' :: keys), more, spec.
    + split.
      * intros [= <-]. split; [done|].
        exists [segment], (segments rest), (NSpec t u sg ca ch).
        repeat split; try done.
        -- apply segments_nonempty.
        -- simpl. destruct (dct !! segment) as [m|]; simpl in *; by subst.
      * by intros [-> _].
  - split; [done|].
    intros (_ & keys & more & spec & Hs & Hk & Hm & _).
    destruct keys as [|key [|key' keys]], more; simplify_eq/=; done.
Qed.

(** X3.  [_put_hier] raises nothing but [TypeError], and raises it exactly
    when an inner segment of the name, reached through plain dicts, holds a
    [ResourceSpec]: a name that continues below a spec. *)
Theorem put_hier_raises_below_spec (dct : gmap string Node)
    (hier_name : string) (object : Node) (e : exn) :
  _put_hier dct hier_name object = Raise e ↔
  e = TypeError
  ∧ ∃ keys more spec,
      segments hier_name = keys ++ more ∧ keys ≠ [] ∧ more ≠ []
      ∧ descend (NDict dct) keys = Some spec ∧ is_spec spec.
Proof. apply _put_hier_raises. Qed.

(** ** The compiler on whole configurations *)

Lemma _put_hier_no_slash (dct : gmap string Node) (name : string)
    (object : Node) :
  no_slash name = true → _put_hier dct name object = Ok (<[name := object]> dct).
Proof. intros H. rewrite _put_hier_eq. cbv zeta. by rewrite find_no_slash. Qed.

Lemma mappings_spec_children (singleton : option bool)
    (type_uri : option string) (custom_actions : option (gmap string string))
    (l : list (string * option RawSpec)) :
  mappings_spec (mkRawSpec singleton type_uri custom_actions (Some (Some l)))
  = mappings_dict l.
Proof.
  simpl. unfold mappings_dict.
  induction l as [|[name s] l IH]; [done|]. simpl. by rewrite IH.
Qed.

Lemma loop_resources_raises (service_type : string) (p : option string) :
  ∀ todo acc e,
    Forall (λ x : string * option RawSpec,
              ∀ st p' name e', compile_item st p' name x.2 = Raise e' →
                e' = TypeError
                ∨ (e' = AttributeError ∧ mappings_item x.2 = false)) todo →
    loop_resources (compile_item service_type p) todo acc = Raise e →
    e = TypeError ∨ (e = AttributeError ∧ mappings_dict todo = false).
Proof.
  induction todo as [|[name s] todo IH]; intros acc e Hall; simpl; [done|].
  apply Forall_cons in Hall as [Hs Hall].
  destruct (compile_item service_type p name s) as [spec|e'] eqn:Hc; simpl.
  - destruct (_put_hier acc name spec) as [acc'|e'] eqn:Hput; simpl.
    + intros Hloop. destruct (IH _ _ Hall Hloop) as [->|[-> Hm]]; [by left|].
      right. split; [done|].
      change (mappings_item s && mappings_dict todo = false).
      by rewrite Hm, andb_false_r.
    + intros [= <-]. left. by apply _put_hier_raises in Hput as [-> _].
  - intros [= <-]. destruct (Hs _ _ _ _ Hc) as [->|[-> Hm]]; [by left|].
    right. split; [done|].
    change (mappings_item s && mappings_dict todo = false).
    simpl in Hm. by rewrite Hm.
Qed.

Lemma compile_item_raises (s : option RawSpec) :
  ∀ st p name e, compile_item st p name s = Raise e →
    e = TypeError ∨ (e = AttributeError ∧ mappings_item s = false).
Proof.
  destruct s as [r|]; [|done].
  induction r as [singleton type_uri custom_actions children IH]
    using RawSpec_nested_ind.
  intros st p name e. rewrite compile_item_eq. simpl.
  destruct children as [[l|]|]; [|by intros [= <-]; right|done].
  destruct (_parse_resources st l _) as [g|e'] eqn:Hp; simpl; [done|].
  intros [= <-].
  change (e' = TypeError
          ∨ e' = AttributeError
            ∧ mappings_spec
                (mkRawSpec singleton type_uri custom_actions (Some (Some l)))
              = false).
  rewrite mappings_spec_children.
  eapply loop_resources_raises; [|exact Hp].
  eapply Forall_impl; [exact IH|]. intros [name' [r'|]] Hr'; simpl in *.
  - by apply Hr'.
  - done.
Qed.

(** X4.  On a configuration whose keys hold values of their types, where
    [children] may also hold nothing, the compiler raises [TypeError] or
    [AttributeError] and nothing else, and [AttributeError] only where a
    [children] key holds nothing: with a mapping under every [children]
    key, the one failure of [_parse_resources] is the [TypeError] of a
    hierarchical key that continues below a [ResourceSpec]. *)
Theorem parse_resources_exceptions (service_type : string)
    (res_dict : list (string * option RawSpec)) (parentTypeURI : option string)
    (e : exn) :
  _parse_resources service_type res_dict parentTypeURI = Raise e →
  e = TypeError ∨ (e = AttributeError ∧ mappings_dict res_dict = false).
Proof.
  apply loop_resources_raises. apply Forall_forall.
  intros x _. apply compile_item_raises.
Qed.

Lemma parse_resources_exceptions_witness :
  AttributeError = TypeError
  ∨ (AttributeError = AttributeError
     ∧ mappings_dict
         [("servers", Some (mkRawSpec None None None (Some None)))]
       = false).
Proof.
  apply (parse_resources_exceptions "compute"
           [("servers", Some (mkRawSpec None None None (Some None)))] None
           AttributeError).
  vm_compute. reflexivity.
Defined.

Lemma flat_item_compiles (s : option RawSpec) :
  match s with Some r => flat_spec r | None => true end = true →
  ∀ st p name, ∃ children,
    compile_item st p name s
    = Ok (make_spec st p name (raw_singleton s) (raw_type_uri s)
            (raw_custom_actions s) children).
Proof.
  destruct s as [r|]; [|by eexists].
  induction r as [singleton type_uri custom_actions children IH]
    using RawSpec_nested_ind.
  intros Hflat st p name. rewrite compile_item_eq. simpl.
  destruct children as [[l|]|]; [|done|by eexists].
  simpl in Hflat.
  assert (∀ acc, ∃ g,
    loop_resources
      (compile_item st (Some (resolved_type_uri st p name type_uri))) l acc
    = Ok g) as Hloop;
    [|destruct (Hloop ∅) as [g Hg]; unfold _parse_resources; rewrite Hg;
      by eexists].
  set (uri := resolved_type_uri _ _ _ _). clearbody uri.
  induction l as [|[name' s'] l IHl]; intros acc; simpl; [by eexists|].
  apply andb_prop in Hflat as [[Hn Hs]%andb_prop Hflat].
  apply Forall_cons in IH as [IHs IH].
  assert (∃ children, compile_item st (Some uri) name' s'
    = Ok (make_spec st (Some uri) name' (raw_singleton s') (raw_type_uri s')
            (raw_custom_actions s') children)) as [ch Hc].
  { destruct s' as [r'|]; [|by eexists]. by apply IHs. }
  rewrite Hc. simpl. rewrite _put_hier_no_slash by done. simpl.
  by apply IHl.
Qed.

Lemma flat_loop (service_type : string) (p : option string) :
  ∀ todo acc,
    flat_dict todo = true →
    ∃ grammar,
      loop_resources (compile_item service_type p) todo acc = Ok grammar
      ∧ ∀ name n, grammar !! name = Some n →
          acc !! name = Some n
          ∨ ∃ s children,
              (name, s) ∈ todo
              ∧ n = make_spec service_type p name (raw_singleton s)
                      (raw_type_uri s) (raw_custom_actions s) children.
Proof.
  induction todo as [|[name s] todo IH]; intros acc Hflat; simpl.
  { exists acc. split; [done|]. by left. }
  apply andb_prop in Hflat as [[Hn Hs]%andb_prop Hflat]. simpl in Hn, Hs.
  destruct (flat_item_compiles s Hs service_type p name) as [ch Hc].
  rewrite Hc. simpl. rewrite _put_hier_no_slash by done. simpl.
  destruct (IH (<[name := make_spec service_type p name (raw_singleton s)
                            (raw_type_uri s) (raw_custom_actions s) ch]> acc)
              Hflat) as (g & Hg & Hin).
  exists g. split; [done|]. intros name' n Hl.
  destruct (Hin name' n Hl) as [Hacc|(s' & ch' & Hel & ->)].
  - destruct (decide (name = name')) as [<-|Hne].
    + rewrite lookup_insert_eq in Hacc. injection Hacc as <-.
      right. exists s, ch. split; [by apply elem_of_cons; left|done].
    + rewrite lookup_insert_ne in Hacc by done. by left.
  - right. exists s', ch'. split; [by apply elem_of_cons; right|done].
Qed.

Lemma loop_resources_dom (compile : string → option RawSpec → py Node) :
  ∀ todo acc grammar,
    Forall (λ x : string * option RawSpec, no_slash x.1 = true) todo →
    loop_resources compile todo acc = Ok grammar →
    ∀ name, is_Some (grammar !! name) ↔
            is_Some (acc !! name) ∨ name ∈ todo.*1.
Proof.
  induction todo as [|[name s] todo IH]; intros acc grammar Hall; simpl.
  { intros [= <-] name.
    split; [by left|]. intros [?|H]; [done|by apply elem_of_nil in H]. }
  apply Forall_cons in Hall as [Hn Hall]. simpl in Hn.
  destruct (compile name s) as [spec|]; simpl; [|done].
  rewrite _put_hier_no_slash by done. simpl. intros Hloop name'.
  rewrite (IH _ _ Hall Hloop name'), lookup_insert_is_Some.
  rewrite elem_of_cons. simpl.
  destruct (decide (name = name')); intuition congruence.
Qed.

(** X5.  A configuration whose keys hold values of their types, with a
    mapping under every [children] key, and none of whose names has a slash
    always compiles; the keys of its grammar are the names of its entries,
    and each key holds the [ResourceSpec] resolved for an entry of that
    name. *)
Theorem flat_configuration_compiles (service_type : string)
    (res_dict : list (string * option RawSpec)) (parentTypeURI : option string) :
  flat_dict res_dict = true →
  ∃ grammar,
    _parse_resources service_type res_dict parentTypeURI = Ok grammar
    ∧ (∀ name, is_Some (grammar !! name) ↔ name ∈ res_dict.*1)
    ∧ ∀ name n, grammar !! name = Some n →
        ∃ s children,
          (name, s) ∈ res_dict
          ∧ n = make_spec service_type parentTypeURI name (raw_singleton s)
                  (raw_type_uri s) (raw_custom_actions s) children.
Proof.
  intros Hflat.
  destruct (flat_loop service_type parentTypeURI res_dict ∅ Hflat)
    as (g & Hg & Hin).
  exists g. split; [exact Hg|]. split.
  - intros name.
    rewrite (loop_resources_dom (compile_item service_type parentTypeURI)
               res_dict ∅ g); [| |exact Hg].
    + rewrite lookup_empty. split; [intros [[? [=]]|?]; done|by right].
    + apply Forall_forall. intros [n s] Hel.
      unfold flat_dict in Hflat. rewrite forallb_forall in Hflat.
      apply list_elem_of_In in Hel. apply Hflat in Hel.
      by apply andb_prop in Hel as [? _].
  - intros name n Hl. destruct (Hin name n Hl) as [Hacc|?]; [|done].
    by rewrite lookup_empty in Hacc.
Qed.

Lemma flat_configuration_compiles_witness :
  ∃ grammar,
    _parse_resources "compute" [("servers", None)] None = Ok grammar
    ∧ (∀ name, is_Some (grammar !! name) ↔
               name ∈ [("servers", @None RawSpec)].*1)
    ∧ ∀ name n, grammar !! name = Some n →
        ∃ s children,
          (name, s) ∈ [("servers", @None RawSpec)]
          ∧ n = make_spec "compute" None name (raw_singleton s)
                  (raw_type_uri s) (raw_custom_actions s) children.
Proof.
  apply (flat_configuration_compiles "compute" [("servers", None)] None).
  reflexivity.
Defined.

(** ** No empty dict in a grammar *)

Lemma _put_hier_truthy (hier_name : string) (object : Node) :
  ∀ dct dct',
    (∀ key m, dct !! key = Some m → all_truthy m) →
    all_truthy object →
    _put_hier dct hier_name object = Ok dct' →
    (∀ key m, dct' !! key = Some m → all_truthy m) ∧ dct' ≠ ∅.
Proof.
  remember (String.length hier_name) as len eqn:Hlen. revert hier_name Hlen.
  induction len as [len IH] using lt_wf_ind.
  intros hier_name -> dct dct' Hdct Hobj. rewrite _put_hier_eq. cbv zeta.
  destruct (Z.leb_spec 0 (find hier_name "/" 0)) as [Hpos|Hpos].
  - set (segment := slice hier_name 0 _). set (rest := slice_from _ _).
    destruct (default (NDict ∅) (dct !! segment)) as [sub|] eqn:Hsub; [|done].
    destruct (_put_hier sub rest object) as [sub'|] eqn:Hput; simpl; [|done].
    intros [= <-].
    eapply (IH (String.length rest)) in Hput as [Hsub' Hne];
      [| |reflexivity| |exact Hobj].
    + split; [|apply insert_non_empty].
      intros key m. destruct (decide (segment = key)) as [<-|Hk].
      * rewrite lookup_insert_eq. intros [= <-] n Hw.
        inversion Hw as [|? key' m' ? Hl Hm|]; subst.
        -- simpl. by rewrite bool_decide_eq_false_2.
        -- by eapply Hsub'.
      * rewrite lookup_insert_ne by done. apply Hdct.
    + apply slice_from_shorter; [done|].
      intros ->. by rewrite find_empty in Hpos.
    + intros key m Hl n Hw.
      destruct (dct !! segment) as [old|] eqn:Hold; simpl in Hsub; subst.
      * eapply Hdct; [exact Hold|]. by eapply within_item.
      * injection Hsub as <-. by rewrite lookup_empty in Hl.
  - intros [= <-]. split; [|apply insert_non_empty].
    intros key m. destruct (decide (hier_name = key)) as [<-|Hk].
    + rewrite lookup_insert_eq. by intros [= <-].
    + rewrite lookup_insert_ne by done. apply Hdct.
Qed.

Lemma loop_resources_truthy (service_type : string) (p : option string) :
  ∀ todo acc grammar,
    Forall (λ x : string * option RawSpec,
              ∀ st p' name node, compile_item st p' name x.2 = Ok node →
                                 all_truthy node) todo →
    (∀ key m, acc !! key = Some m → all_truthy m) →
    loop_resources (compile_item service_type p) todo acc = Ok grammar →
    ∀ key m, grammar !! key = Some m → all_truthy m.
Proof.
  induction todo as [|[name s] todo IH]; intros acc grammar Hall Hacc; simpl.
  { by intros [= <-]. }
  apply Forall_cons in Hall as [Hs Hall].
  destruct (compile_item service_type p name s) as [spec|] eqn:Hc;
    simpl; [|done].
  destruct (_put_hier acc name spec) as [acc'|] eqn:Hput; simpl; [|done].
  apply IH; [done|].
  eapply _put_hier_truthy in Hput as [Hacc' _]; [done|done|]. by eapply Hs.
Qed.

Lemma compile_item_truthy (s : option RawSpec) :
  ∀ st p name node, compile_item st p name s = Ok node → all_truthy node.
Proof.
  assert (∀ st p name sg tu ca, all_truthy (make_spec st p name sg tu ca ∅))
    as Hleaf.
  { intros st p name sg tu ca n Hw. unfold make_spec in Hw.
    inversion Hw as [|?|? ? ? ? ? ? ? ? Hk _]; subst; [done|].
    by rewrite lookup_empty in Hk. }
  destruct s as [r|]; [|intros st p name node [= <-]; apply Hleaf].
  induction r as [singleton type_uri custom_actions children IH]
    using RawSpec_nested_ind.
  intros st p name node. rewrite compile_item_eq. simpl.
  destruct children as [[l|]|]; [|done|intros [= <-]; apply Hleaf].
  destruct (_parse_resources st l _) as [g|] eqn:Hp; simpl; [|done].
  intros [= <-] n Hw. unfold make_spec in Hw.
  inversion Hw as [|?|? ? ? ? ? key m ? Hk Hm]; subst; [done|].
  eapply (loop_resources_truthy _ _ l ∅ g); [| |exact Hp|exact Hk|exact Hm].
  - eapply Forall_impl; [exact IH|]. intros [name' [r'|]] Hr'; simpl in *.
    + by apply Hr'.
    + intros st' p' nm node' [= <-]. apply Hleaf.
  - intros key' m'. by rewrite lookup_empty.
Qed.

(** X6.  No dict of a compiled grammar below its root is empty: every node
    under a key of the grammar, and every node below it, is true as a Python
    object, so that the test [if child_res:] of [_build_event] fails for no
    child that the grammar has. *)
Theorem compiled_nodes_truthy (service_type : string)
    (res_dict : list (string * option RawSpec)) (parentTypeURI : option string)
    (grammar : gmap string Node) (key : string) (m n : Node) :
  _parse_resources service_type res_dict parentTypeURI = Ok grammar →
  grammar !! key = Some m → within m n →
  node_truthy n = true.
Proof.
  intros Hp Hk Hw.
  eapply (loop_resources_truthy service_type parentTypeURI res_dict ∅ grammar);
    [| |exact Hp|exact Hk|exact Hw].
  - apply Forall_forall. intros x _. apply compile_item_truthy.
  - intros key' m'. by rewrite lookup_empty.
Qed.

Lemma compiled_nodes_truthy_witness :
  node_truthy (NDict {[ "b" := NSpec "compute/a/b" (Some "compute/a/b/a/")
                                 false ∅ ∅ ]}) = true.
Proof.
  apply (compiled_nodes_truthy "compute" [("a/b", None)] None
           {[ "a" := NDict {[ "b" := NSpec "compute/a/b"
                                        (Some "compute/a/b/a/") false ∅ ∅ ]} ]}
           "a" (NDict {[ "b" := NSpec "compute/a/b" (Some "compute/a/b/a/")
                                  false ∅ ∅ ]})).
  - vm_compute. reflexivity.
  - reflexivity.
  - apply within_here.
Defined.

(** ** The descent and the path, as theorems *)

(** X9.  From a cursor at or after the start, [_build_event] is the walk over
    the segments of the rest of the path after the cursor, cut at the
    slashes; and [create_event] is that walk from the root of the grammar
    over the segments of the path without its prefix, or raises
    [AttributeError] where the path has not the prefix. *)
Theorem descent_reads_segments (env : Env) (self : Middleware)
    (request : Request.t) (response : option Response.t) (path : string)
    (cursor : Z) (res_node : Node) (res_id res_parent_id : option string) :
  0 ≤ cursor →
  _build_event env self res_node res_id res_parent_id request response path
    cursor
  = walk env self res_node res_id res_parent_id request response
      (segments (slice_from path (cursor + 1)))
  ∧ create_event env self request response
    = match path_tokens self request with
      | None => Raise AttributeError
      | Some tokens =>
          walk env self (NDict (_resource_specs self)) None None request
            response tokens
      end.
Proof.
  intros Hc. split; [by apply _build_event_walk|apply create_event_walk].
Qed.

Lemma descent_reads_segments_witness :
  _build_event example_env example_middleware
    (NDict (_resource_specs example_middleware)) None None
    (example_request "GET" "/v2/p1/servers/abc" None) None "/servers/abc" 0
  = walk example_env example_middleware
      (NDict (_resource_specs example_middleware)) None None
      (example_request "GET" "/v2/p1/servers/abc" None) None
      (segments (slice_from "/servers/abc" (0 + 1))).
Proof.
  apply (descent_reads_segments example_env example_middleware
           (example_request "GET" "/v2/p1/servers/abc" None) None
           "/servers/abc" 0 (NDict (_resource_specs example_middleware))
           None None).
  lia.
Defined.

(** X7.  [_strip_url_prefix] returns a rest exactly when the path is the
    formatted prefix followed by that rest. *)
Theorem strip_url_prefix_exact (self : Middleware) (request : Request.t)
    (rest : string) :
  _strip_url_prefix self request = Some rest ↔
  Request.path request
  = format (_prefix_template self) (project_or_domain_id request) +:+ rest.
Proof. apply strip_exact. Qed.

(** X8.  For a path that is the prefix, a slash and keys joined by slashes,
    where no key has a slash and the last key is not empty, [create_event]
    walks exactly these keys, with or without one trailing slash. *)
Theorem path_segments_of_request (self : Middleware) (request : Request.t)
    (keys : list string) (key trailing : string) :
  Forall (λ k, no_slash k = true) keys →
  last keys = Some key → key ≠ "" →
  trailing = "" ∨ trailing = "/" →
  Request.path request
  = format (_prefix_template self) (project_or_domain_id request)
    +:+ "/" +:+ join_slash keys +:+ trailing →
  path_tokens self request = Some keys.
Proof. apply path_tokens_of_path. Qed.

Lemma path_segments_of_request_witness :
  path_tokens example_middleware
    (example_request "GET" "/v2/p1/servers/abc/" None)
  = Some ["servers"; "abc"].
Proof.
  apply (path_segments_of_request example_middleware
           (example_request "GET" "/v2/p1/servers/abc/" None)
           ["servers"; "abc"] "abc" "/").
  - by repeat constructor.
  - reflexivity.
  - done.
  - by right.
  - reflexivity.
Defined.

(** ** What every event has *)

(** X17.  Every event that [create_event] returns has the event type
    [activity], an action that is not empty, the id and time that were
    generated for it, and the path with the query string of the request.
    Its initiator has the type of a user account, the user name, the
    identity status and the project or domain id of the headers of the
    request ([unknown] for a header that is missing), the address and agent
    of the client, and as its id the user id of the headers, or a generated
    one where that is empty.  Of the token nothing is said. *)
Theorem event_fields (env : Env) (self : Middleware) (request : Request.t)
    (response : option Response.t) (event : Event.t) :
  create_event env self request response = Ok (Some event) →
  Event.eventType event = "activity"
  ∧ Event.action event ≠ ""
  ∧ Event.id event = generate_uuid env
  ∧ Event.eventTime event = get_utc_now env
  ∧ Event.requestPath event = Request.path_qs request
  ∧ ClientResource.typeURI (Event.initiator event)
    = "service/security/account/user"
  ∧ ClientResource.id (Event.initiator event)
    = (match Request.environ request !! "HTTP_X_USER_ID" with
       | Some "" => initiator_uuid env
       | Some user_id => user_id
       | None => "unknown"
       end)
  ∧ ClientResource.name (Event.initiator event)
    = default "unknown" (Request.environ request !! "HTTP_X_USER_NAME")
  ∧ ClientResource.host (Event.initiator event)
    = Host.mk (Request.client_addr request) (Request.user_agent request)
  ∧ KeystoneCredential.identity_status
      (ClientResource.credential (Event.initiator event))
    = default "unknown" (Request.environ request !! "HTTP_X_IDENTITY_STATUS")
  ∧ ClientResource.project_id (Event.initiator event)
    = project_or_domain_id request.
Proof.
  revert event. apply create_event_built.
  - intros res_spec res_id action_suffix event. unfold _create_event.
    destruct (_get_action res_spec res_id request action_suffix)
      as [action|]; simpl; [|done].
    destruct action as [action|]; simpl; [|done].
    destruct (String.eqb_spec action "") as [->|Hne]; simpl; [done|].
    destruct (if truthy res_id then _ else _) as [target|]; simpl; [|done].
    intros [= <-]. simpl. repeat split; try done.
    by destruct (Request.environ request !! "HTTP_X_USER_ID") as [[|]|].
  - by intros [] ?.
Qed.

Lemma event_fields_witness :
  Event.eventType read_server_event = "activity"
  ∧ Event.action read_server_event ≠ ""
  ∧ Event.id read_server_event = generate_uuid example_env
  ∧ Event.eventTime read_server_event = get_utc_now example_env
  ∧ Event.requestPath read_server_event
    = Request.path_qs (example_request "GET" "/v2/p1/servers/abc123" None)
  ∧ ClientResource.typeURI (Event.initiator read_server_event)
    = "service/security/account/user"
  ∧ ClientResource.id (Event.initiator read_server_event)
    = (match Request.environ
               (example_request "GET" "/v2/p1/servers/abc123" None)
             !! "HTTP_X_USER_ID" with
       | Some "" => initiator_uuid example_env
       | Some user_id => user_id
       | None => "unknown"
       end)
  ∧ ClientResource.name (Event.initiator read_server_event)
    = default "unknown"
        (Request.environ (example_request "GET" "/v2/p1/servers/abc123" None)
         !! "HTTP_X_USER_NAME")
  ∧ ClientResource.host (Event.initiator read_server_event)
    = Host.mk
        (Request.client_addr
           (example_request "GET" "/v2/p1/servers/abc123" None))
        (Request.user_agent
           (example_request "GET" "/v2/p1/servers/abc123" None))
  ∧ KeystoneCredential.identity_status
      (ClientResource.credential (Event.initiator read_server_event))
    = default "unknown"
        (Request.environ (example_request "GET" "/v2/p1/servers/abc123" None)
         !! "HTTP_X_IDENTITY_STATUS")
  ∧ ClientResource.project_id (Event.initiator read_server_event)
    = project_or_domain_id
        (example_request "GET" "/v2/p1/servers/abc123" None).
Proof.
  apply (event_fields example_env example_middleware
           (example_request "GET" "/v2/p1/servers/abc123" None)
           (Some (Response.mk 200 None)) read_server_event).
  vm_compute. reflexivity.
Defined.

(** ** The bodies *)

Lemma walk_same_status (env : Env) (self : Middleware) (request : Request.t)
    (status : Z) (body1 body2 : option Json) (tokens : list string) :
  String.eqb (Request.method request) "POST" = false →
  ∀ res_node res_id res_parent_id,
    walk env self res_node res_id res_parent_id request
      (Some (Response.mk status body1)) tokens
    = walk env self res_node res_id res_parent_id request
        (Some (Response.mk status body2)) tokens.
Proof.
  intros Hm. induction tokens as [|token rest IH];
    intros res_node res_id res_parent_id.
  - cbn [walk]. by rewrite !end_of_path_not_post by done.
  - cbn [walk]. destruct res_node as [items|t e sg ca ch].
    + destruct (items !! token); [apply IH|done].
    + destruct (truthy res_id || sg); [|apply IH].
      destruct (ch !! token) as [child|]; [destruct (node_truthy child)|];
        first [apply IH | by destruct rest].
Qed.

(** X18.  The body of the response is read for [POST] only: for any other
    method, two responses with the same status give the same result,
    whatever their bodies are, valid JSON or not. *)
Theorem response_body_read_for_post_only (env : Env) (self : Middleware)
    (request : Request.t) (status : Z) (body1 body2 : option Json) :
  Request.method request ≠ "POST" →
  create_event env self request (Some (Response.mk status body1))
  = create_event env self request (Some (Response.mk status body2)).
Proof.
  intros Hm. apply String.eqb_neq in Hm. rewrite !create_event_walk.
  destruct (path_tokens self request); [|done]. by apply walk_same_status.
Qed.

Lemma response_body_read_for_post_only_witness :
  create_event example_env example_middleware
    (example_request "GET" "/v2/p1/servers/abc" None)
    (Some (Response.mk 200 None))
  = create_event example_env example_middleware
      (example_request "GET" "/v2/p1/servers/abc" None)
      (Some (Response.mk 200 (Some (JObj [("name", JStr "foo")])))).
Proof.
  apply (response_body_read_for_post_only example_env example_middleware
           (example_request "GET" "/v2/p1/servers/abc" None) 200 None
           (Some (JObj [("name", JStr "foo")]))).
  done.
Defined.

(** X19.  A [POST] or [GET] on [<prefix>/<name>/<id>/action] whose body is
    not valid JSON, or is JSON that is false as a Python object ([null],
    [false], [0], an empty string, list or object), gives no event and
    raises nothing. *)
Theorem action_without_usable_body (env : Env) (self : Middleware)
    (request : Request.t) (response : option Response.t)
    (name res_id : string) (type_uri : string)
    (el_type_uri : option string) (custom_actions : gmap string string)
    (children : gmap string Node) :
  path_tokens self request = Some [name; res_id; "action"] →
  _resource_specs self !! name
    = Some (NSpec type_uri el_type_uri false custom_actions children) →
  res_id ≠ "" →
  children !! "action" = None →
  Request.method request = "POST" ∨ Request.method request = "GET" →
  (∀ payload, Request.json request = Some payload →
              json_truthy payload = false) →
  create_event env self request response = Ok None.
Proof.
  intros Htok Hspec Hid Hch Hm Hbody.
  rewrite create_event_walk, Htok.
  rewrite (walk_dict _ _ _ _ _ _ _ _ _ _ Hspec), walk_id by done.
  rewrite walk_action, py_or_Some by (done || by apply truthy_bound).
  apply _create_event_filtered with (action := None); [|done].
  rewrite _get_action_table.
  assert (_get_custom_action
            (NSpec type_uri el_type_uri false custom_actions children)
            "action" request = Ok None) as Hnone.
  { unfold _get_custom_action. simpl.
    destruct (Request.json request) as [payload|]; [|done].
    by rewrite (Hbody payload eq_refl). }
  by destruct Hm as [-> | ->].
Qed.

Lemma action_without_usable_body_witness :
  create_event example_env example_middleware
    (example_request "POST" "/v2/p1/servers/abc/action" None) None = Ok None.
Proof.
  apply (action_without_usable_body example_env example_middleware
           (example_request "POST" "/v2/p1/servers/abc/action" None) None
           "servers" "abc" "compute/servers" (Some "compute/servers/server")
           ∅ ∅).
  - vm_compute. reflexivity.
  - reflexivity.
  - done.
  - reflexivity.
  - by left.
  - intros payload H. discriminate H.
Defined.

(** X20.  A [POST] or [GET] on [<prefix>/<name>/<id>/action] whose body is a
    JSON number other than zero, or [true], raises [TypeError]: the body is
    not iterable, and [_get_custom_action] catches [ValueError] only. *)
Theorem action_with_scalar_body (env : Env) (self : Middleware)
    (request : Request.t) (response : option Response.t)
    (name res_id : string) (type_uri : string)
    (el_type_uri : option string) (custom_actions : gmap string string)
    (children : gmap string Node) :
  path_tokens self request = Some [name; res_id; "action"] →
  _resource_specs self !! name
    = Some (NSpec type_uri el_type_uri false custom_actions children) →
  res_id ≠ "" →
  children !! "action" = None →
  Request.method request = "POST" ∨ Request.method request = "GET" →
  (Request.json request = Some (JBool true)
   ∨ ∃ n, n ≠ 0 ∧ Request.json request = Some (JNum n)) →
  create_event env self request response = Raise TypeError.
Proof.
  intros Htok Hspec Hid Hch Hm Hbody.
  rewrite create_event_walk, Htok.
  rewrite (walk_dict _ _ _ _ _ _ _ _ _ _ Hspec), walk_id by done.
  rewrite walk_action, py_or_Some by (done || by apply truthy_bound).
  unfold _create_event. rewrite _get_action_table.
  assert (_get_custom_action
            (NSpec type_uri el_type_uri false custom_actions children)
            "action" request = Raise TypeError) as Hraise.
  { unfold _get_custom_action. simpl.
    destruct Hbody as [-> | (n & Hn & ->)]; [done|]. simpl.
    apply Z.eqb_neq in Hn. by rewrite Hn. }
  by destruct Hm as [-> | ->]; simpl; rewrite Hraise.
Qed.

Lemma action_with_scalar_body_witness :
  create_event example_env example_middleware
    (example_request "POST" "/v2/p1/servers/abc/action" (Some (JNum 5)))
    None
  = Raise TypeError.
Proof.
  apply (action_with_scalar_body example_env example_middleware
           (example_request "POST" "/v2/p1/servers/abc/action"
              (Some (JNum 5))) None
           "servers" "abc" "compute/servers" (Some "compute/servers/server")
           ∅ ∅).
  - vm_compute. reflexivity.
  - reflexivity.
  - done.
  - reflexivity.
  - by left.
  - right. exists 5. by split.
Defined.
